(** * openmw-modchecker: a shallow embedding of [openmw-modchecker.py]

    The script scans mod directories and reports, for a mod of an OpenMW
    load order, whether all of its asset files are overridden by mods that
    load after it.  This development embeds the functions of the script as
    Rocq functions and proves properties of them.

    Conventions of the embedding.
    - A Python [str] is a [string]; its characters are the code points 0
      to 255, the 256 values of [ascii].  [str.lower] and [str.isspace] are
      those of Python on these code points.
    - [os.path] is the POSIX flavour: [os.path.sep] is ["/"].
    - The file system is a tree of directories and plain files together
      with the working directory of the process; symbolic links are not
      modelled.  [os.walk] is the top-down walk of the standard library,
      which yields nothing for a directory it cannot list.
    - [emit_log] calls are recorded as structured messages: a message
      constructor carries the arguments of the format string.
    - The [OrderedDict] built by [read_openmw_cfg] is an association list in
      insertion order; its keys are the counters [1, 2, ...].
    - Paths hold no NUL character (for which [os.scandir] raises an error
      that [os.walk] does not catch).
    - A configuration file that exists can be opened and read as text. *)

From Stdlib Require Import Bool Arith List Ascii String Lia.
Import ListNotations.
Open Scope list_scope.
Open Scope string_scope.

(** ** Python string operations *)

Module Str.

(** A one-character string. *)
Definition chr (c : ascii) : string := String c EmptyString.

(** The double quote and the newline. *)
Definition dquote : ascii := ascii_of_nat 34.
Definition squote : ascii := ascii_of_nat 39.
Definition newline : ascii := ascii_of_nat 10.

Definition DQ : string := chr dquote.
Definition NL : string := chr newline.

(** [c.lower()] on one character: the letters [A]..[Z] (65 to 90) and the
    capital letters of the range 192 to 222, of which 215 is the
    multiplication sign and no letter, move up by 32; every other code
    point up to 255 is its own lower case. *)
Definition lower_char (c : ascii) : ascii :=
  let n := nat_of_ascii c in
  if (((65 <=? n) && (n <=? 90))
      || ((192 <=? n) && (n <=? 222) && negb (n =? 215)))%nat
  then ascii_of_nat (n + 32) else c.

(** [s.lower()] *)
Fixpoint lower (s : string) : string :=
  match s with
  | EmptyString => EmptyString
  | String c s' => String (lower_char c) (lower s')
  end.

(** [s.startswith(pre)] *)
Fixpoint startswith (s pre : string) {struct pre} : bool :=
  match pre with
  | EmptyString => true
  | String p pre' =>
      match s with
      | EmptyString => false
      | String c s' => Ascii.eqb c p && startswith s' pre'
      end
  end.

(** [sub in s] *)
Fixpoint str_in (sub s : string) : bool :=
  startswith s sub ||
  match s with
  | EmptyString => false
  | String _ s' => str_in sub s'
  end.

(** [s.endswith(suf)] *)
Fixpoint endswith (s suf : string) : bool :=
  String.eqb s suf ||
  match s with
  | EmptyString => false
  | String _ s' => endswith s' suf
  end.

(** [of_rev acc] turns a reversed accumulator of characters into a
    string. *)
Definition of_rev (acc : list ascii) : string :=
  string_of_list_ascii (rev acc).

(** [s.split(sep)] for a non-empty [sep]: the pieces between the
    non-overlapping occurrences of [sep], found from the left.  [skip]
    counts the characters of a matched separator that are still to be
    dropped, [cur] is the current piece, reversed. *)
Fixpoint split_aux (sep : string) (skip : nat) (cur : list ascii)
    (s : string) : list string :=
  match s with
  | EmptyString => [of_rev cur]
  | String c s' =>
      match skip with
      | S k => split_aux sep k cur s'
      | O =>
          if startswith s sep
          then of_rev cur :: split_aux sep (String.length sep - 1) [] s'
          else split_aux sep 0 (c :: cur) s'
      end
  end.

Definition split (s sep : string) : list string := split_aux sep 0 [] s.

(** [l[-1]] of a list of strings that is never empty here ([split] always
    returns at least one piece). *)
Definition last_piece (l : list string) : string := last l EmptyString.

(** [s.replace(old, new)] for a non-empty [old]. *)
Fixpoint replace_aux (old new : string) (skip : nat) (s : string) : string :=
  match s with
  | EmptyString => EmptyString
  | String c s' =>
      match skip with
      | S k => replace_aux old new k s'
      | O =>
          if startswith s old
          then new ++ replace_aux old new (String.length old - 1) s'
          else String c (replace_aux old new 0 s')
      end
  end.

Definition replace (s old new : string) : string := replace_aux old new 0 s.

(** Membership of a character in the character set of [strip]. *)
Fixpoint char_in (c : ascii) (chars : string) : bool :=
  match chars with
  | EmptyString => false
  | String d chars' => Ascii.eqb c d || char_in c chars'
  end.

(** [str.isspace] on one character: the code points 9 to 13, 28 to 32,
    133 (next line) and 160 (no-break space). *)
Definition is_space (c : ascii) : bool :=
  let n := nat_of_ascii c in
  (((9 <=? n) && (n <=? 13)) || ((28 <=? n) && (n <=? 32))
   || (n =? 133) || (n =? 160))%nat.

(** Dropping the leading characters that satisfy [p]. *)
Fixpoint lstrip_by (p : ascii -> bool) (s : string) : string :=
  match s with
  | EmptyString => EmptyString
  | String c s' => if p c then lstrip_by p s' else s
  end.

(** Dropping the trailing characters that satisfy [p]. *)
Fixpoint rstrip_by (p : ascii -> bool) (s : string) : string :=
  match s with
  | EmptyString => EmptyString
  | String c s' =>
      match rstrip_by p s' with
      | EmptyString => if p c then EmptyString else chr c
      | t => String c t
      end
  end.

(** [s.rstrip()] *)
Definition rstrip (s : string) : string := rstrip_by is_space s.

(** [s.strip(chars)] *)
Definition strip (s chars : string) : string :=
  rstrip_by (fun c => char_in c chars) (lstrip_by (fun c => char_in c chars) s).

(** [x in l] for a list of strings. *)
Definition mem (x : string) (l : list string) : bool :=
  existsb (String.eqb x) l.

(** [l.remove(x)]: the first occurrence of [x] goes.  Python raises
    [ValueError] when [x] is absent; the script calls [remove] only under
    the guard [x in l], and the model leaves the list alone otherwise. *)
Fixpoint remove (x : string) (l : list string) : list string :=
  match l with
  | [] => []
  | y :: l' => if String.eqb x y then l' else y :: remove x l'
  end.

End Str.

(** ** [os.path] and [pathlib] *)

Module OsPath.

(** [os.path.sep] *)
Definition sep : string := "/".

(** [os.path.join(a, b)] *)
Definition join (a b : string) : string :=
  if Str.startswith b sep then b
  else if String.eqb a EmptyString || Str.endswith a sep then a ++ b
  else a ++ sep ++ b.

(** The components that [pathlib] keeps of a path: empty pieces and ["."]
    are dropped. *)
Definition parts (path : string) : list string :=
  filter (fun x => negb (String.eqb x EmptyString) && negb (String.eqb x "."))
         (Str.split path sep).

(** [pathlib.Path(path).name] *)
Definition path_name (path : string) : string := last (parts path) EmptyString.

End OsPath.

(** ** The file system and [os.walk] *)

Module Fs.

(** A plain file, or a directory with its entries in the order in which
    [os.scandir] lists them. *)
#[warnings="-register-all"] Inductive node : Type :=
| File
| Dir (entries : list (string * node)).

(** The tree below ["/"] and the working directory of the process. *)
Record filesystem : Type := { root : node; cwd : string }.

Fixpoint lookup (name : string) (entries : list (string * node)) : option node :=
  match entries with
  | [] => None
  | (n, x) :: entries' => if String.eqb name n then Some x else lookup name entries'
  end.

(** Path resolution, one component at a time; [parents] is the chain of
    directories above [cur].  A component below a plain file, or a name
    that is absent, makes the resolution fail. *)
Fixpoint resolve_from (parents : list node) (cur : node) (comps : list string)
    : option node :=
  match comps with
  | [] => Some cur
  | c :: rest =>
      match cur with
      | File => None
      | Dir entries =>
          if String.eqb c EmptyString || String.eqb c "." then
            resolve_from parents cur rest
          else if String.eqb c ".." then
            match parents with
            | [] => resolve_from [] cur rest
            | p :: ps => resolve_from ps p rest
            end
          else
            match lookup c entries with
            | None => None
            | Some n => resolve_from (cur :: parents) n rest
            end
      end
  end.

(** The node a path names, if any.  The empty path names nothing. *)
Definition resolve (fs : filesystem) (path : string) : option node :=
  if String.eqb path EmptyString then None
  else if Str.startswith path OsPath.sep then
    resolve_from [] (root fs) (Str.split path OsPath.sep)
  else
    resolve_from [] (root fs)
      (Str.split (cwd fs) OsPath.sep ++ Str.split path OsPath.sep)%list.

Definition is_dir (n : node) : bool :=
  match n with Dir _ => true | File => false end.

Definition dirnames (entries : list (string * node)) : list string :=
  map fst (filter (fun e => is_dir (snd e)) entries).

Definition filenames (entries : list (string * node)) : list string :=
  map fst (filter (fun e => negb (is_dir (snd e))) entries).

(** The triples [(root, dirs, files)] that the top-down [os.walk] yields
    for the tree [n] reached under the path [top]. *)
Fixpoint walk_node (top : string) (n : node)
    : list (string * list string * list string) :=
  match n with
  | File => []
  | Dir entries =>
      (top, dirnames entries, filenames entries)
      :: flat_map (fun e => let '(name, child) := e in
                            walk_node (OsPath.join top name) child) entries
  end.

(** [os.walk(top)]: errors of [scandir] are ignored, so a path that is
    missing, or that names a plain file, yields nothing. *)
Definition os_walk (fs : filesystem) (top : string)
    : list (string * list string * list string) :=
  match resolve fs top with
  | Some n => walk_node top n
  | None => []
  end.

End Fs.

Import Fs.

(** ** The script *)

Definition OK_DIRS : list string :=
  [ "bookart"; "fonts"; "icons"; "meshes"; "music"; "sound"; "splash";
    "textures" ].

Definition VERY_LOUD : bool := false.

(** The entries that the loop over [OK_DIRS] appends for one file: one copy
    of the lower-cased file name for every allow-listed name that occurs in
    the lower-cased full path. *)
Definition ok_dir_hits (full_file_path _file : string) : list string :=
  flat_map (fun d => if Str.str_in d (Str.lower full_file_path)
                     then [Str.lower _file] else [])
           OK_DIRS.

(** The entries appended for one triple [(r, d, f)] of the walk. *)
Definition files_of_triple (t : string * list string * list string)
    : list string :=
  let '(r, _, f) := t in
  flat_map (fun _file => ok_dir_hits (OsPath.join r _file) _file) f.

(** [get_mod_file_list(mod_dir)] *)
Definition get_mod_file_list (fs : filesystem) (mod_dir : string) : list string :=
  flat_map files_of_triple (os_walk fs mod_dir).

(** The exception that escapes from [main] when there is no base
    directory: [os.path.join(None, ...)] raises [TypeError]. *)
Inductive exception : Type :=
| TypeError.

(** How a run of the script ends: normally, through [sys.exit], or with an
    exception that nothing catches. *)
Inductive run (A : Type) : Type :=
| Done (a : A)
| Exit (code : nat)
| Uncaught (exc : exception).
Arguments Done {A} a.
Arguments Exit {A} code.
Arguments Uncaught {A} exc.

(** [error_and_die(msg)]: the message is logged and the process exits with
    status 1. *)
Definition error_and_die {A : Type} : run A := Exit 1.

(** [check_openmw_cfg_path(path)]; [cfg] is the content of the file at
    [path], and [None] when [os.path.isfile] does not hold. *)
Definition check_openmw_cfg_path (cfg : option (list string)) : run bool :=
  match cfg with
  | Some _ => Done true
  | None => error_and_die
  end.

(** The loop of [read_openmw_cfg] over the lines of the file, [count]
    being the next position to hand out. *)
Fixpoint read_lines (count : nat) (line_list : list string)
    : list (nat * string) :=
  match line_list with
  | [] => []
  | line :: rest =>
      if Str.startswith line "data="
         && negb (Str.str_in "data files" (Str.lower line))
      then (count, line) :: read_lines (S count) rest
      else read_lines count rest
  end.

(** [read_openmw_cfg(cfg_path)]; [cfg] is what [readlines] returns for the
    file at [cfg_path], and [None] when there is no such file. *)
Definition read_openmw_cfg (cfg : option (list string))
    : run (list (nat * string)) :=
  match check_openmw_cfg_path cfg with
  | Exit code => Exit code
  | Uncaught exc => Uncaught exc
  | Done _ =>
      let line_list := match cfg with Some l => l | None => [] end in
      Done (read_lines 1 line_list)
  end.

(** [mod_name_from_data_path(datastring)] *)
Definition mod_name_from_data_path (datastring : string) : string :=
  Str.rstrip
    (Str.replace
       (Str.last_piece
          (Str.split (Str.last_piece (Str.split datastring ("data=" ++ Str.DQ)))
                     OsPath.sep))
       Str.DQ EmptyString).

(** *** [check_mod] *)

(** What [check_mod] does before it reaches one of its three ends: the
    directory walks started by [get_mod_file_list], and the [emit_log]
    calls of the loop, with the arguments of their format strings. *)
Inductive event : Type :=
| Walked (mod_dir : string)
| MsgFound (_mod : string) (num : nat)
| MsgBlank
| MsgLoadOrder (num : nat) (path : string)
| MsgFilesLeft (_mod : string) (left : nat)
| MsgSkipping
| MsgChecking (_mod next_mod : string)
| MsgNoFilesToCheck (next_mod : string)
| MsgFilesToCheck (next_mod : string) (count : nat)
| MsgOverwrites (next_mod _file _mod : string)
| MsgDoesNotOverwrite (next_mod _mod : string).

(** The three ends of [check_mod].
    - [NoFiles]: "Mod ... has no files!", [return False] (line 116).
    - [Overwritten ow_by]: "Mod ... has been overwritten by the following
      mods:" followed by one line per element of [ow_by], [return False]
      (line 177).
    - [CanStay mod1_files]: the loop is over, "Mod ... can stay, remaining
      filecount: len(mod1_files)", and the function returns [None]. *)
Inductive outcome : Type :=
| NoFiles
| Overwritten (ow_by : list string)
| CanStay (mod1_files : list string).

(** The value [check_mod] returns: [Some false] for [False], [None] for
    [None]. *)
Definition returned (o : outcome) : option bool :=
  match o with
  | NoFiles => Some false
  | Overwritten _ => Some false
  | CanStay _ => None
  end.

(** The messages of the end of [check_mod]. *)
Inductive report : Type :=
| RepNoFiles (_mod : string)
| RepOverwritten (_mod : string)
| RepArrow (m : string)
| RepBlank
| RepCanStay (_mod : string) (filecount : nat)
| RepLeftoverHeader
| RepLeftover (f : string)
| RepTooMany.

Definition final_report (_mod : string) (o : outcome) : list report :=
  match o with
  | NoFiles => [RepNoFiles _mod]
  | Overwritten ow_by => RepOverwritten _mod :: map RepArrow ow_by
  | CanStay mod1_files =>
      RepBlank :: RepCanStay _mod (List.length mod1_files)
      :: (if (List.length mod1_files <? 50)%nat || VERY_LOUD
          then RepLeftoverHeader :: map RepLeftover mod1_files
          else [RepTooMany])
  end.

(** The loop [for _file in next_mod_files] (lines 160-170).  It returns the
    new [mod1_files] and [ow_by] and the messages it logged. *)
Fixpoint overwrite_loop (_mod next_mod : string) (next_mod_files : list string)
    (mod1_files ow_by : list string)
    : list string * list string * list event :=
  match next_mod_files with
  | [] => (mod1_files, ow_by, [])
  | _file :: rest =>
      if Str.mem _file mod1_files then
        let mod1_files := Str.remove _file mod1_files in
        let ow_by := if Str.mem next_mod ow_by then ow_by
                     else (ow_by ++ [next_mod])%list in
        let '(m, o, evs) := overwrite_loop _mod next_mod rest mod1_files ow_by in
        (m, o, MsgOverwrites next_mod _file _mod :: evs)
      else overwrite_loop _mod next_mod rest mod1_files ow_by
  end.

(** Putting events in front of the events of the rest of a run. *)
Definition emit (evs : list event) (r : outcome * list event)
    : outcome * list event :=
  (fst r, (evs ++ snd r)%list).

(** The loop [for num, p in all_paths.items()] (lines 119-182) followed by
    the code after it; the state of the loop is [start_checking],
    [mod1_files] and [ow_by]. *)
Fixpoint walk_load_order (fs : filesystem) (_mod base_dir : string)
    (items : list (nat * string))
    (start_checking : bool) (mod1_files ow_by : list string)
    : outcome * list event :=
  match items with
  | [] => (CanStay mod1_files, [])
  | (num, p) :: rest =>
      if Str.str_in (OsPath.sep ++ _mod) p && negb start_checking then
        emit [MsgFound _mod num]
          (walk_load_order fs _mod base_dir rest true mod1_files ow_by)
      else if start_checking then
        if (0 <? List.length mod1_files)%nat then
          let next_mod := mod_name_from_data_path p in
          if String.eqb next_mod _mod then
            emit [MsgBlank; MsgLoadOrder num (Str.rstrip p);
                  MsgFilesLeft _mod (List.length mod1_files); MsgSkipping]
              (walk_load_order fs _mod base_dir rest true mod1_files ow_by)
          else
            let next_mod_files :=
              get_mod_file_list fs (OsPath.join base_dir next_mod) in
            if (List.length next_mod_files =? 0)%nat then
              emit [MsgBlank; MsgLoadOrder num (Str.rstrip p);
                    MsgFilesLeft _mod (List.length mod1_files);
                    MsgChecking _mod next_mod;
                    Walked (OsPath.join base_dir next_mod);
                    MsgNoFilesToCheck next_mod]
                (walk_load_order fs _mod base_dir rest true mod1_files ow_by)
            else
              let '(mod1_files', ow_by', evs) :=
                overwrite_loop _mod next_mod next_mod_files mod1_files ow_by in
              emit ([MsgBlank; MsgLoadOrder num (Str.rstrip p);
                     MsgFilesLeft _mod (List.length mod1_files);
                     MsgChecking _mod next_mod;
                     Walked (OsPath.join base_dir next_mod);
                     MsgFilesToCheck next_mod (List.length next_mod_files)]
                    ++ evs ++ [MsgDoesNotOverwrite next_mod _mod])%list
                (walk_load_order fs _mod base_dir rest true mod1_files' ow_by')
        else (Overwritten ow_by, [MsgBlank])
      else walk_load_order fs _mod base_dir rest start_checking mod1_files ow_by
  end.

(** [check_mod(_mod, all_paths, base_dir)] *)
Definition check_mod (fs : filesystem) (_mod : string)
    (all_paths : list (nat * string)) (base_dir : string)
    : outcome * list event :=
  let mod1_files := get_mod_file_list fs (OsPath.join base_dir _mod) in
  if (List.length mod1_files =? 0)%nat then
    (NoFiles, [Walked (OsPath.join base_dir _mod)])
  else
    emit [Walked (OsPath.join base_dir _mod)]
      (walk_load_order fs _mod base_dir all_paths false mod1_files []).

(** *** [main] *)

(** One pass of the loop of [main] that reaches [check_mod]: the
    configuration line, the mod name derived from it, the file list logged
    for it, and what [check_mod] did. *)
Record analysis : Type := {
  data_mod_path : string;
  single_mod : string;
  _mod_files_list : list string;
  checked : outcome * list event
}.

(** The characters removed by [strip] in [main]: both quotes and the
    newline. *)
Definition quotes_and_newline : string :=
  String Str.squote (String Str.dquote (String Str.newline EmptyString)).

(** The loop [for data_mod_path in all_data_paths.values()] (lines
    291-306).  As in the source, the second assignment to [mod_path] starts
    again from [data_mod_path]. *)
Fixpoint check_all_mods (fs : filesystem) (values : list string)
    (all_data_paths : list (nat * string)) (base_mod_dir : string)
    : list analysis :=
  match values with
  | [] => []
  | data_mod_path :: rest =>
      if Str.startswith data_mod_path "data=" then
        let mod_path := Str.replace data_mod_path "data=" EmptyString in
        let mod_path := Str.strip data_mod_path quotes_and_newline in
        if String.eqb mod_path base_mod_dir then
          check_all_mods fs rest all_data_paths base_mod_dir
        else
          let _mod_files_list := get_mod_file_list fs mod_path in
          let single_mod := OsPath.path_name mod_path in
          {| data_mod_path := data_mod_path;
             single_mod := single_mod;
             _mod_files_list := _mod_files_list;
             checked := check_mod fs single_mod all_data_paths base_mod_dir |}
          :: check_all_mods fs rest all_data_paths base_mod_dir
      else check_all_mods fs rest all_data_paths base_mod_dir
  end.

(** The variable [base_mod_dir] of [main] after lines 231 and 255-256: it
    is set from [-D] only when the value given is not empty, and is [None]
    otherwise. *)
Definition set_base_mod_dir (parsed : string) : option string :=
  if String.eqb parsed EmptyString then None else Some parsed.

(** [main()], after the command line has been parsed: [cfg] is the content
    of the configuration file ([None] when it is missing), [base_mod_dir]
    the value of [-D] and [mod_dir_name] the value of [-m], when given.  An
    empty [-m] counts as absent, as [if single_mod:] has it.  With an empty
    [-D] the first [os.path.join] on the base directory raises: at line
    278 for a single mod, at line 113 in the first call of [check_mod]
    otherwise. *)
Definition main (fs : filesystem) (cfg : option (list string))
    (base_mod_dir : string) (mod_dir_name : option string)
    : run (list analysis) :=
  match read_openmw_cfg cfg with
  | Exit code => Exit code
  | Uncaught exc => Uncaught exc
  | Done all_data_paths =>
      if (List.length (map snd all_data_paths) =? 0)%nat then error_and_die
      else
        match mod_dir_name, set_base_mod_dir base_mod_dir with
        | Some (String c m as single_mod), Some base_mod_dir =>
            Done [ {| data_mod_path := EmptyString;
                      single_mod := single_mod;
                      _mod_files_list :=
                        get_mod_file_list fs (OsPath.join base_mod_dir single_mod);
                      checked :=
                        check_mod fs single_mod all_data_paths base_mod_dir |} ]
        | Some (String c m), None => Uncaught TypeError
        | _, Some base_mod_dir =>
            Done (check_all_mods fs (map snd all_data_paths) all_data_paths
                    base_mod_dir)
        | _, None =>
            if existsb (fun data_mod_path => Str.startswith data_mod_path "data=")
                       (map snd all_data_paths)
            then Uncaught TypeError
            else Done []
        end
  end.

(** ** Vocabulary of the properties *)

(** The test of line 120 that starts the walk: the separator followed by
    the mod name occurs somewhere in the raw configuration line. *)
Definition mentions (_mod : string) (e : nat * string) : bool :=
  Str.str_in (OsPath.sep ++ _mod) (snd e).

(** The test of line 90 that keeps a configuration line. *)
Definition keeps (line : string) : bool :=
  Str.startswith line "data=" && negb (Str.str_in "data files" (Str.lower line)).

(** Lines numbered from [count] on. *)
Definition number_from (count : nat) (lines : list string) : list (nat * string) :=
  combine (seq count (List.length lines)) lines.

(** [files] after each entry of [next_mod_files] has taken away one equal
    entry, if there is one left. *)
Definition list_diff (files next_mod_files : list string) : list string :=
  fold_left (fun acc f => Str.remove f acc) next_mod_files files.

(** The file lists of the entries of [items] that the walk compares the
    target with: those whose derived name is not the target's. *)
Definition later_lists (fs : filesystem) (_mod base_dir : string)
    (items : list (nat * string)) : list (list string) :=
  map (fun e => get_mod_file_list fs
                  (OsPath.join base_dir (mod_name_from_data_path (snd e))))
      (filter (fun e => negb (String.eqb (mod_name_from_data_path (snd e)) _mod))
              items).

(** The entries of [files] whose name occurs in none of [lists]. *)
Definition unmatched (files : list string) (lists : list (list string))
    : list string :=
  filter (fun f => negb (existsb (Str.mem f) lists)) files.

(** The pairs (directory, file name) of a walk. *)
Definition walked_files (w : list (string * list string * list string))
    : list (string * string) :=
  flat_map (fun t => let '(r, _, f) := t in map (pair r) f) w.

(** A walked file counts for [name] when its lower-cased name is [name] and
    its lower-cased full path contains an allow-listed name. *)
Definition counts_for (name : string) (rf : string * string) : bool :=
  String.eqb (Str.lower (snd rf)) name
  && existsb (fun d => Str.str_in d (Str.lower (OsPath.join (fst rf) (snd rf))))
             OK_DIRS.

(** Some entry of [next_mod_files] is among [files]. *)
Definition contributes (files next_mod_files : list string) : bool :=
  existsb (fun f => Str.mem f files) next_mod_files.

(** What one walked entry does to the pair ([mod1_files], [ow_by]) while
    files remain: nothing for an entry of the target's own name; otherwise
    the files of the entry's mod are taken away, and the mod is appended to
    [ow_by] when it took at least one and is not listed yet. *)
Definition compare_with (fs : filesystem) (_mod base_dir : string)
    (st : list string * list string) (e : nat * string)
    : list string * list string :=
  let next_mod := mod_name_from_data_path (snd e) in
  if String.eqb next_mod _mod then st
  else
    let next_mod_files := get_mod_file_list fs (OsPath.join base_dir next_mod) in
    (list_diff (fst st) next_mod_files,
     if contributes (fst st) next_mod_files && negb (Str.mem next_mod (snd st))
     then (snd st ++ [next_mod])%list else snd st).

(** *** The wording of the specification, for comparison *)

(** [s] without its first [n] characters. *)
Fixpoint drop (n : nat) (s : string) : string :=
  match n, s with
  | S k, String _ s' => drop k s'
  | _, _ => s
  end.

(** The value of a configuration line: what follows the key prefix,
    without the wrapping quotes and the end of line. *)
Definition spec_value (line : string) : string :=
  Str.strip (drop (String.length "data=") line) quotes_and_newline.

(** The specification's placeholder test: the value equals the token,
    letter case aside. *)
Definition spec_is_placeholder (line : string) : bool :=
  String.eqb (Str.lower (spec_value line)) "data files".

Definition spec_keeps (line : string) : bool :=
  Str.startswith line "data=" && negb (spec_is_placeholder line).

Definition spec_index (line_list : list string) : list (nat * string) :=
  number_from 1 (filter spec_keeps line_list).

(** The specification's [positionOf]: the identifier is a piece of the
    declared path, delimited by path separators. *)
Definition spec_delimited (_mod : string) (e : nat * string) : bool :=
  Str.mem _mod (Str.split (spec_value (snd e)) OsPath.sep).

Definition spec_position_of (_mod : string) (all_paths : list (nat * string))
    : option nat :=
  option_map fst (find (spec_delimited _mod) all_paths).

(** ** Sample installations *)

(** The configuration line that declares the data path [path]. *)
Definition data_line (path : string) : string :=
  "data=" ++ Str.DQ ++ path ++ Str.DQ ++ Str.NL.

(** A mod directory [name] with the given files in [meshes] and in
    [icons]. *)
Definition mod_dir (name : string) (meshes icons : list string)
    : string * node :=
  (name, Dir [ ("meshes", Dir (map (fun f => (f, File)) meshes));
               ("icons", Dir (map (fun f => (f, File)) icons)) ]).

Definition installation (mods : list (string * node)) : filesystem :=
  {| root := Dir [("mods", Dir mods)]; cwd := "/" |}.

(** [A] provides [x] and [y], [B] provides [x], [C] provides [y]. *)
Definition fs_xy : filesystem :=
  installation [ mod_dir "A" ["x"; "y"] []; mod_dir "B" ["x"] [];
                 mod_dir "C" ["y"] [] ].

Definition order_ABC : list (nat * string) :=
  [ (1, data_line "/mods/A"); (2, data_line "/mods/B");
    (3, data_line "/mods/C") ].

(** [A] has a file named [a.dds] in two asset folders and a file [z.nif];
    [B] and [C] have one [a.dds] each. *)
Definition fs_twice : filesystem :=
  installation [ mod_dir "A" ["a.dds"; "z.nif"] ["a.dds"];
                 mod_dir "B" ["a.dds"] []; mod_dir "C" [] ["a.dds"] ].

(** Two mods, the name of one being the beginning of the name of the
    other. *)
Definition fs_foo : filesystem :=
  installation [ mod_dir "FooBar" ["x"] []; mod_dir "Foo" ["x"; "y"] [] ].

Definition order_foo : list (nat * string) :=
  [ (1, data_line "/mods/FooBar"); (2, data_line "/mods/Foo") ].

(** The load order without [C]. *)
Definition order_AB : list (nat * string) :=
  [ (1, data_line "/mods/A"); (2, data_line "/mods/B") ].

(** The directory on disk is [a], the configuration spells it [A]. *)
Definition fs_case : filesystem :=
  installation [ mod_dir "a" ["x"] []; mod_dir "B" ["x"] [] ].

(** The load order declares [A], then a mod whose name starts with the
    letter [a], then [B] and [C]. *)
Definition order_armor : list (nat * string) :=
  [ (1, data_line "/mods/A"); (2, data_line "/mods/armor");
    (3, data_line "/mods/B"); (4, data_line "/mods/C") ].

(** The mods live below [/home/a/mods]: the directory on disk is [a], the
    configuration spells it [A]. *)
Definition fs_home : filesystem :=
  {| root := Dir [("home", Dir [("a", Dir [("mods",
                    Dir [ mod_dir "a" ["x"] []; mod_dir "B" ["x"] [] ])])])];
     cwd := "/" |}.

Definition order_home : list (nat * string) :=
  [ (1, data_line "/home/a/mods/A"); (2, data_line "/home/a/mods/B");
    (3, data_line "/home/a/mods/C") ].

(** [A] provides [x], [y] and [z], [B] provides [x], [C] provides [y]. *)
Definition fs_xyz : filesystem :=
  installation [ mod_dir "A" ["x"; "y"; "z"] []; mod_dir "B" ["x"] [];
                 mod_dir "C" ["y"] [] ].

(** A load order that declares [A] twice. *)
Definition order_ABAC : list (nat * string) :=
  [ (1, data_line "/mods/A"); (2, data_line "/mods/B");
    (3, data_line "/mods/A"); (4, data_line "/mods/C") ].

(** A configuration file whose first data path is the base directory. *)
Definition cfg_with_base : list string :=
  [ data_line "/mods"; data_line "/mods/A"; data_line "/mods/B" ].

(** The load order [A, B, C] followed by a fourth entry. *)
Definition order_ABCD : list (nat * string) :=
  (order_ABC ++ [(4, data_line "/mods/D")])%list.

(** The message "Mod ... overwrites file ... from the source mod ...". *)
Definition is_overwrite (e : event) : bool :=
  match e with
  | MsgOverwrites _ _ _ => true
  | _ => false
  end.

(** The number of allow-listed names that occur in the lower-cased full
    path of a walked file. *)
Definition hits (rf : string * string) : nat :=
  List.length
    (filter (fun d => Str.str_in d (Str.lower (OsPath.join (fst rf) (snd rf))))
            OK_DIRS).

(** No name in the tree starts with the path separator (the names of a
    real directory hold no separator at all). *)
Fixpoint names_ok (n : node) : bool :=
  match n with
  | File => true
  | Dir entries =>
      forallb (fun e => let '(name, child) := e in
                        negb (Str.startswith name OsPath.sep) && names_ok child)
              entries
  end.

(** A mod directory called [Better Sounds] with a text file in a
    sub-directory that is not an asset folder. *)
Definition fs_sounds : filesystem :=
  installation [ ("Better Sounds", Dir [("docs", Dir [("Readme.TXT", File)])]) ].

(** An event that does not come from comparing the target with an entry
    of its own name. *)
Definition not_from (_mod : string) (e : event) : Prop :=
  match e with
  | MsgChecking _ next_mod => next_mod <> _mod
  | MsgOverwrites next_mod _ _ => next_mod <> _mod
  | _ => True
  end.

(** ** Facts about strings *)

Section StringFacts.

Lemma append_nil_r (s : string) : s ++ EmptyString = s.
Proof. induction s as [|c s IH]; simpl; [reflexivity | now rewrite IH]. Qed.

Lemma append_assoc (a b c : string) : (a ++ b) ++ c = a ++ (b ++ c).
Proof. induction a as [|x a IH]; simpl; [reflexivity | now rewrite IH]. Qed.

Lemma length_append (a b : string) :
  String.length (a ++ b) = String.length a + String.length b.
Proof. induction a as [|x a IH]; simpl; [reflexivity | now rewrite IH]. Qed.

(** Two ways of cutting one string have a common refinement. *)
Lemma append_eq_append (a b c d : string) :
  a ++ b = c ++ d ->
  exists w, (a = c ++ w /\ d = w ++ b) \/ (c = a ++ w /\ b = w ++ d).
Proof.
  revert c; induction a as [|x a IH]; intros c H.
  - exists c; right; split; [reflexivity | exact H].
  - destruct c as [|y c].
    + exists (String x a); left; split; [reflexivity | symmetry; exact H].
    + simpl in H. injection H as Hxy H. subst y.
      destruct (IH c H) as [w [[Ha Hd] | [Hc Hb]]]; exists w.
      * left; split; [simpl; now rewrite <- Ha | exact Hd].
      * right; split; [simpl; now rewrite <- Hc | exact Hb].
Qed.

Lemma append_inj_length (a b c d : string) :
  a ++ b = c ++ d -> String.length a = String.length c -> a = c /\ b = d.
Proof.
  revert c; induction a as [|x a IH]; intros [|y c] H L; simpl in *;
    try discriminate.
  - split; [reflexivity | exact H].
  - injection H as Hxy H. injection L as L.
    destruct (IH c H L) as [-> ->]. now subst.
Qed.

Lemma startswith_iff (s pre : string) :
  Str.startswith s pre = true <-> exists t, s = pre ++ t.
Proof.
  revert s; induction pre as [|p pre IH]; intros s; simpl.
  - split; [intros _; now exists s | reflexivity].
  - destruct s as [|c s].
    + split; [discriminate | intros [t H]; discriminate].
    + rewrite andb_true_iff, Ascii.eqb_eq, IH. split.
      * intros [-> [t ->]]. now exists t.
      * intros [t H]. injection H as -> ->. split; [reflexivity | now exists t].
Qed.

Lemma str_in_iff (sub s : string) :
  Str.str_in sub s = true <-> exists a b, s = a ++ sub ++ b.
Proof.
  induction s as [|c s IH].
  - simpl. rewrite orb_false_r, startswith_iff. split.
    + intros [t H]. now exists EmptyString, t.
    + intros [a [b H]]. destruct a; [now exists b | discriminate].
  - cbn [Str.str_in]. rewrite orb_true_iff, startswith_iff, IH. split.
    + intros [[t H] | [a [b H]]].
      * now exists EmptyString, t.
      * exists (String c a), b. simpl. now rewrite H.
    + intros [a [b H]]. destruct a as [|x a].
      * left. now exists b.
      * right. simpl in H. injection H as _ H. now exists a, b.
Qed.

Lemma str_in_false (sub s a b : string) :
  Str.str_in sub s = false -> s <> a ++ sub ++ b.
Proof.
  intros H E. assert (T : Str.str_in sub s = true) by (apply str_in_iff; eauto).
  congruence.
Qed.

(** A single character occurs in a concatenation when it occurs in one of
    the two parts. *)
Lemma chr_in_append (c : ascii) (x y : string) :
  Str.str_in (Str.chr c) (x ++ y)
  = Str.str_in (Str.chr c) x || Str.str_in (Str.chr c) y.
Proof.
  induction x as [|d x IH].
  - simpl. destruct y; reflexivity.
  - cbn [append Str.str_in Str.startswith Str.chr]. rewrite IH.
    now rewrite orb_assoc.
Qed.

Lemma lower_length (s : string) : String.length (Str.lower s) = String.length s.
Proof. induction s as [|c s IH]; simpl; [reflexivity | now rewrite IH]. Qed.

Lemma lower_char_idem (c : ascii) :
  Str.lower_char (Str.lower_char c) = Str.lower_char c.
Proof. destruct c as [[] [] [] [] [] [] [] []]; reflexivity. Qed.

Lemma lower_idem (s : string) : Str.lower (Str.lower s) = Str.lower s.
Proof.
  induction s as [|c s IH]; simpl; [reflexivity |].
  now rewrite lower_char_idem, IH.
Qed.

(** Lower-casing neither creates nor removes a path separator. *)
Lemma lower_char_sep (c : ascii) :
  Ascii.eqb (Str.lower_char c) "/" = Ascii.eqb c "/".
Proof. destruct c as [[] [] [] [] [] [] [] []]; reflexivity. Qed.

Lemma sep_in_lower (s : string) :
  Str.str_in OsPath.sep (Str.lower s) = Str.str_in OsPath.sep s.
Proof.
  induction s as [|c s IH]; [reflexivity |].
  cbn [Str.lower Str.str_in Str.startswith OsPath.sep].
  now rewrite lower_char_sep, IH.
Qed.

End StringFacts.

(** ** Facts about lists of file names *)

Section ListFacts.

Lemma filter_filter {A : Type} (p q : A -> bool) (l : list A) :
  filter p (filter q l) = filter (fun x => q x && p x) l.
Proof.
  induction l as [|x l IH]; simpl; [reflexivity |].
  destruct (q x); simpl; [destruct (p x); now rewrite IH | exact IH].
Qed.

Lemma mem_In (x : string) (l : list string) : Str.mem x l = true <-> In x l.
Proof.
  unfold Str.mem. rewrite existsb_exists. split.
  - intros [y [Hy E]]. apply String.eqb_eq in E. now subst.
  - intros H. exists x. split; [exact H | apply String.eqb_refl].
Qed.

Lemma mem_false (x : string) (l : list string) :
  Str.mem x l = false <-> ~ In x l.
Proof.
  rewrite <- mem_In. destruct (Str.mem x l); split; congruence.
Qed.

Lemma remove_absent (x : string) (l : list string) :
  ~ In x l -> Str.remove x l = l.
Proof.
  induction l as [|y l IH]; intros H; simpl; [reflexivity |].
  destruct (String.eqb_spec x y) as [E | E].
  - exfalso. apply H. now left.
  - f_equal. apply IH. intros K. apply H. now right.
Qed.

Lemma remove_keeps_others (x f : string) (l : list string) :
  In f l -> f <> x -> In f (Str.remove x l).
Proof.
  induction l as [|y l IH]; intros H N; simpl in *; [contradiction |].
  destruct (String.eqb_spec x y) as [E | E].
  - destruct H as [H | H]; [congruence | exact H].
  - destruct H as [H | H]; [now left | right; auto].
Qed.

Lemma remove_length (x : string) (l : list string) :
  In x l -> S (List.length (Str.remove x l)) = List.length l.
Proof.
  induction l as [|y l IH]; intros H; simpl in *; [contradiction |].
  destruct (String.eqb_spec x y) as [E | E]; [reflexivity |].
  simpl. f_equal. apply IH. destruct H as [H | H]; [congruence | exact H].
Qed.

(** [remove] takes one occurrence of its argument away and touches no
    other name. *)
Lemma remove_count (x name : string) (l : list string) :
  count_occ string_dec (Str.remove x l) name
  = if String.eqb x name
    then pred (count_occ string_dec l name)
    else count_occ string_dec l name.
Proof.
  induction l as [|y l IH]; simpl.
  - now destruct (String.eqb x name).
  - destruct (String.eqb_spec x y) as [E | E].
    + subst y. destruct (String.eqb_spec x name) as [F | F].
      * destruct (string_dec x name); [reflexivity | contradiction].
      * destruct (string_dec x name); [contradiction | reflexivity].
    + simpl. rewrite IH.
      destruct (string_dec y name) as [G | G];
        destruct (String.eqb_spec x name) as [F | F]; try reflexivity.
      congruence.
Qed.

Lemma remove_NoDup (x : string) (l : list string) :
  NoDup l -> Str.remove x l = filter (fun f => negb (String.eqb f x)) l.
Proof.
  induction l as [|y l IH]; intros H; simpl; [reflexivity |].
  inversion H as [|? ? Hy Hl]; subst.
  rewrite (String.eqb_sym y x).
  destruct (String.eqb_spec x y) as [E | E]; simpl.
  - subst y. symmetry. apply forallb_filter_id, forallb_forall.
    intros z Hz. destruct (String.eqb_spec z x) as [F | F]; [| reflexivity].
    subst z. contradiction.
  - f_equal. now apply IH.
Qed.

Lemma list_diff_nil (files : list string) : list_diff files [] = files.
Proof. reflexivity. Qed.

Lemma list_diff_cons (files : list string) (x : string) (l : list string) :
  list_diff files (x :: l) = list_diff (Str.remove x files) l.
Proof. reflexivity. Qed.

Lemma list_diff_keeps (f : string) (l files : list string) :
  In f files -> ~ In f l -> In f (list_diff files l).
Proof.
  revert files; induction l as [|x l IH]; intros files H N; [exact H |].
  rewrite list_diff_cons. apply IH.
  - apply remove_keeps_others; [exact H |]. intros E. apply N. now left.
  - intros K. apply N. now right.
Qed.

(** On a list without repetition, [list_diff] is the removal of the names
    that occur in the second list. *)
Lemma list_diff_NoDup (l files : list string) :
  NoDup files ->
  list_diff files l = filter (fun f => negb (Str.mem f l)) files.
Proof.
  revert files; induction l as [|x l IH]; intros files H.
  - rewrite list_diff_nil. symmetry. apply forallb_filter_id.
    apply forallb_forall. reflexivity.
  - rewrite list_diff_cons, remove_NoDup by exact H.
    rewrite IH by (apply NoDup_filter; exact H).
    rewrite filter_filter. apply filter_ext.
    intros f. unfold Str.mem. cbn [existsb]. now rewrite negb_orb.
Qed.

Lemma unmatched_cons (files l : list string) (lists : list (list string)) :
  unmatched files (l :: lists)
  = unmatched (filter (fun f => negb (Str.mem f l)) files) lists.
Proof.
  unfold unmatched. rewrite filter_filter. apply filter_ext.
  intros f. cbn [existsb]. now rewrite negb_orb.
Qed.

Lemma fold_list_diff_NoDup (lists : list (list string)) (files : list string) :
  NoDup files -> fold_left list_diff lists files = unmatched files lists.
Proof.
  revert files; induction lists as [|l lists IH]; intros files H;
    cbn [fold_left].
  - unfold unmatched. symmetry. apply forallb_filter_id.
    apply forallb_forall. reflexivity.
  - rewrite unmatched_cons, list_diff_NoDup by exact H.
    apply IH, NoDup_filter, H.
Qed.

(** [list_diff] is the difference of multisets. *)
Lemma list_diff_count (l files : list string) (name : string) :
  count_occ string_dec (list_diff files l) name
  = count_occ string_dec files name - count_occ string_dec l name.
Proof.
  revert files; induction l as [|x l IH]; intros files.
  - rewrite list_diff_nil. simpl. lia.
  - rewrite list_diff_cons, IH, remove_count. simpl.
    destruct (String.eqb_spec x name) as [E | E];
      destruct (string_dec x name) as [F | F]; try contradiction; lia.
Qed.

End ListFacts.

(** ** Facts about the loops of [check_mod] *)

Section WalkFacts.

Variable fs : filesystem.
Variables _mod base_dir : string.

Lemma fst_emit (evs : list event) (r : outcome * list event) :
  fst (emit evs r) = fst r.
Proof. reflexivity. Qed.

Lemma snd_emit (evs : list event) (r : outcome * list event) :
  snd (emit evs r) = (evs ++ snd r)%list.
Proof. reflexivity. Qed.

(** What the loop over the files of a later mod leaves behind. *)
Lemma overwrite_loop_spec (next_mod : string) (next_mod_files : list string) :
  forall mod1_files ow_by files' ow_by' evs,
    overwrite_loop _mod next_mod next_mod_files mod1_files ow_by
    = (files', ow_by', evs) ->
    files' = list_diff mod1_files next_mod_files
    /\ (forall x, In x ow_by' -> In x ow_by \/ x = next_mod)
    /\ (forall e, In e evs ->
          exists f, e = MsgOverwrites next_mod f _mod /\ In f next_mod_files).
Proof.
  induction next_mod_files as [|f rest IH];
    intros mod1_files ow_by files' ow_by' evs H.
  - simpl in H. injection H as <- <- <-.
    repeat split; [now left | intros e []].
  - cbn [overwrite_loop] in H. rewrite list_diff_cons.
    destruct (Str.mem f mod1_files) eqn:M.
    + destruct (overwrite_loop _mod next_mod rest (Str.remove f mod1_files)
                  (if Str.mem next_mod ow_by then ow_by
                   else (ow_by ++ [next_mod])%list))
        as [[m o] es] eqn:R.
      injection H as <- <- <-.
      destruct (IH _ _ _ _ _ R) as (Hf & Ho & He).
      repeat split.
      * exact Hf.
      * intros x Hx. destruct (Ho x Hx) as [K | K]; [| now right].
        destruct (Str.mem next_mod ow_by); [now left |].
        apply in_app_or in K. destruct K as [K | [K | []]]; [now left | now right].
      * intros e [<- | K].
        -- exists f. split; [reflexivity | now left].
        -- destruct (He e K) as [g [-> Hg]]. exists g. split; [reflexivity | now right].
    + destruct (IH _ _ _ _ _ H) as (Hf & Ho & He).
      apply mem_false in M. rewrite (remove_absent f mod1_files M).
      repeat split; [exact Hf | exact Ho |].
      intros e K. destruct (He e K) as [g [-> Hg]].
      exists g. split; [reflexivity | now right].
Qed.

(** Entries before the first one that mentions the target are passed
    over. *)
Lemma walk_passes_over (before rest : list (nat * string))
    (mod1_files ow_by : list string) :
  (forall e, In e before -> mentions _mod e = false) ->
  walk_load_order fs _mod base_dir (before ++ rest)%list false mod1_files ow_by
  = walk_load_order fs _mod base_dir rest false mod1_files ow_by.
Proof.
  induction before as [|[num p] before IH]; intros H; [reflexivity |].
  cbn [app walk_load_order].
  assert (M : Str.str_in (OsPath.sep ++ _mod) p = false)
    by (apply (H (num, p)); now left).
  rewrite M. cbn [andb]. apply IH. intros e K. apply H. now right.
Qed.

(** The first entry that mentions the target starts the walk. *)
Lemma walk_starts (num : nat) (p : string) (after : list (nat * string))
    (mod1_files ow_by : list string) :
  mentions _mod (num, p) = true ->
  walk_load_order fs _mod base_dir ((num, p) :: after) false mod1_files ow_by
  = emit [MsgFound _mod num]
      (walk_load_order fs _mod base_dir after true mod1_files ow_by).
Proof.
  intros M. cbn [walk_load_order]. unfold mentions in M. cbn [snd] in M.
  now rewrite M.
Qed.

(** When no entry mentions the target the loop runs to its end without
    doing anything. *)
Lemma walk_never_starts (items : list (nat * string))
    (mod1_files ow_by : list string) :
  (forall e, In e items -> mentions _mod e = false) ->
  walk_load_order fs _mod base_dir items false mod1_files ow_by
  = (CanStay mod1_files, []).
Proof.
  intros H. rewrite <- (app_nil_r items). now rewrite walk_passes_over.
Qed.

(** An entry of the target's own name changes nothing. *)
Lemma walk_skips_self (num : nat) (p : string) (rest : list (nat * string))
    (mod1_files ow_by : list string) :
  mod_name_from_data_path p = _mod ->
  mod1_files <> [] ->
  walk_load_order fs _mod base_dir ((num, p) :: rest) true mod1_files ow_by
  = emit [MsgBlank; MsgLoadOrder num (Str.rstrip p);
          MsgFilesLeft _mod (List.length mod1_files); MsgSkipping]
      (walk_load_order fs _mod base_dir rest true mod1_files ow_by).
Proof.
  intros E N. cbn [walk_load_order]. rewrite andb_false_r.
  destruct mod1_files as [|f files]; [contradiction |].
  cbn [List.length Nat.ltb Nat.leb]. now rewrite E, String.eqb_refl.
Qed.

(** Nothing that the loop logs or collects comes from an entry of the
    target's own name. *)
Lemma walk_not_from_self (items : list (nat * string)) :
  forall start_checking mod1_files ow_by,
    ~ In _mod ow_by ->
    (forall ow, fst (walk_load_order fs _mod base_dir items start_checking
                       mod1_files ow_by) = Overwritten ow -> ~ In _mod ow)
    /\ Forall (not_from _mod)
         (snd (walk_load_order fs _mod base_dir items start_checking
                 mod1_files ow_by)).
Proof.
  induction items as [|[num p] rest IH]; intros sc files ow N.
  - split; [discriminate | constructor].
  - cbn [walk_load_order].
    destruct (Str.str_in (OsPath.sep ++ _mod) p && negb sc).
    { rewrite fst_emit, snd_emit. destruct (IH true files ow N) as [A B].
      split; [exact A | apply Forall_app; split; [repeat constructor | exact B]]. }
    destruct sc; [| now apply IH].
    destruct (0 <? List.length files)%nat.
    2:{ split; [intros ow' E; injection E as <-; exact N | repeat constructor]. }
    destruct (String.eqb_spec (mod_name_from_data_path p) _mod) as [E | E].
    { rewrite fst_emit, snd_emit. destruct (IH true files ow N) as [A B].
      split; [exact A | apply Forall_app; split; [repeat constructor | exact B]]. }
    destruct (List.length _ =? 0)%nat.
    { rewrite fst_emit, snd_emit. destruct (IH true files ow N) as [A B].
      split; [exact A |].
      apply Forall_app; split; [| exact B].
      repeat constructor. exact E. }
    destruct (overwrite_loop _ _ _ files ow) as [[files' ow'] evs] eqn:R.
    destruct (overwrite_loop_spec _ _ _ _ _ _ _ R) as (_ & Ho & He).
    assert (N' : ~ In _mod ow').
    { intros K. destruct (Ho _ K) as [K' | K']; [now apply N | congruence]. }
    rewrite fst_emit, snd_emit. destruct (IH true files' ow' N') as [A B].
    split; [exact A |].
    apply Forall_app; split; [| exact B].
    repeat (apply Forall_cons; [try exact I; try exact E |]).
    apply Forall_app; split; [| repeat constructor].
    apply Forall_forall. intros e K. destruct (He e K) as [g [-> _]]. exact E.
Qed.

End WalkFacts.

(** ** Facts about the enumeration of a mod directory *)

Section EnumerationFacts.

Variable fs : filesystem.

Lemma get_mod_file_list_missing (mod_dir : string) :
  resolve fs mod_dir = None -> get_mod_file_list fs mod_dir = [].
Proof.
  intros H. unfold get_mod_file_list, os_walk. now rewrite H.
Qed.

Lemma flat_map_pair {A B C : Type} (g : A * B -> list C) (r : A) (f : list B) :
  flat_map g (map (pair r) f) = flat_map (fun x => g (r, x)) f.
Proof.
  induction f as [|x f IH]; simpl; [reflexivity | now rewrite IH].
Qed.

(** The enumeration, file by file. *)
Lemma get_mod_file_list_by_file (mod_dir : string) :
  get_mod_file_list fs mod_dir
  = flat_map (fun rf => ok_dir_hits (OsPath.join (fst rf) (snd rf)) (snd rf))
      (walked_files (os_walk fs mod_dir)).
Proof.
  unfold get_mod_file_list, walked_files.
  induction (os_walk fs mod_dir) as [|[[r d] f] w IH]; [reflexivity |].
  cbn [flat_map]. rewrite flat_map_app, <- IH. f_equal.
  unfold files_of_triple. now rewrite flat_map_pair.
Qed.

Lemma ok_dir_hits_lower (path _file x : string) :
  In x (ok_dir_hits path _file) -> x = Str.lower _file.
Proof.
  unfold ok_dir_hits. intros H. apply in_flat_map in H.
  destruct H as [d [_ H]].
  destruct (Str.str_in d (Str.lower path)); [| contradiction].
  destruct H as [H | []]. now symmetry.
Qed.

(** Every enumerated name is in lower case. *)
Lemma enumerated_lower (mod_dir x : string) :
  In x (get_mod_file_list fs mod_dir) -> Str.lower x = x.
Proof.
  rewrite get_mod_file_list_by_file. intros H. apply in_flat_map in H.
  destruct H as [rf [_ H]]. apply ok_dir_hits_lower in H. subst x.
  apply lower_idem.
Qed.

Lemma hits_count (h : string -> bool) (x name : string) (ds : list string) :
  (if String.eqb x name && existsb h ds then 1 else 0)
  <= count_occ string_dec (flat_map (fun d => if h d then [x] else []) ds) name.
Proof.
  induction ds as [|d ds IH]; cbn [existsb flat_map].
  - rewrite andb_false_r. lia.
  - rewrite count_occ_app. destruct (h d); cbn [orb].
    + destruct (String.eqb_spec x name) as [E | E]; cbn [andb]; [| lia].
      simpl. destruct (string_dec x name); [lia | contradiction].
    + simpl (count_occ _ [] _). lia.
Qed.

(** Every walked file that counts for [name] puts at least one entry
    [name] in the enumeration. *)
Lemma enumeration_count (mod_dir name : string) :
  List.length (filter (counts_for name) (walked_files (os_walk fs mod_dir)))
  <= count_occ string_dec (get_mod_file_list fs mod_dir) name.
Proof.
  rewrite get_mod_file_list_by_file.
  induction (walked_files (os_walk fs mod_dir)) as [|rf l IH]; [simpl; lia |].
  cbn [filter flat_map]. rewrite count_occ_app.
  assert (H : (if counts_for name rf then 1 else 0)
              <= count_occ string_dec
                   (ok_dir_hits (OsPath.join (fst rf) (snd rf)) (snd rf)) name)
    by apply hits_count.
  destruct (counts_for name rf); cbn [List.length]; lia.
Qed.

End EnumerationFacts.

(** ** The lookup of the target is sensitive to letter case *)

Section CaseFacts.

Lemma lower_eq_length (a b : string) :
  Str.lower a = Str.lower b -> String.length a = String.length b.
Proof.
  intros H. rewrite <- (lower_length a), <- (lower_length b). now rewrite H.
Qed.

Lemma sep_append (s : string) : OsPath.sep ++ s = String "/" s.
Proof. reflexivity. Qed.

(** A line [pre/name post] does not mention a target that differs from
    [name] in letter case only, unless [pre] already mentions it. *)
Lemma case_variant_not_mentioned (_mod name pre post : string) :
  Str.lower _mod = Str.lower name ->
  _mod <> name ->
  Str.str_in OsPath.sep _mod = false ->
  Str.str_in (OsPath.sep ++ _mod) pre = false ->
  Str.str_in OsPath.sep post = false ->
  Str.str_in (OsPath.sep ++ _mod) (pre ++ OsPath.sep ++ name ++ post) = false.
Proof.
  intros Hlow Hne Hmod Hpre Hpost.
  assert (Hname : Str.str_in OsPath.sep name = false).
  { rewrite <- sep_in_lower, <- Hlow, sep_in_lower. exact Hmod. }
  assert (Hlen : String.length _mod = String.length name)
    by now apply lower_eq_length.
  destruct (Str.str_in (OsPath.sep ++ _mod) (pre ++ OsPath.sep ++ name ++ post))
    eqn:E; [exfalso | reflexivity].
  apply str_in_iff in E. destruct E as [a [b E]].
  rewrite !sep_append in E. cbn [append] in E.
  (* the same start: the two names would be equal *)
  assert (Same : forall x y, String "/" (name ++ x) = String "/" (_mod ++ y)
                             -> False).
  { intros x y K. injection K as K. symmetry in K.
    apply append_inj_length in K; [| exact Hlen]. now destruct K. }
  (* a separator inside [name ++ post] *)
  assert (Inside : forall w y, name ++ post = w ++ String "/" y -> False).
  { intros w y K.
    assert (T : Str.str_in OsPath.sep (name ++ post) = true).
    { apply str_in_iff. exists w, y. exact K. }
    change OsPath.sep with (Str.chr "/") in T, Hname, Hpost.
    rewrite chr_in_append, Hname, Hpost in T. discriminate. }
  destruct (append_eq_append _ _ _ _ E) as [w [[Hp Hy] | [Ha Hx]]].
  - destruct w as [|c w].
    + cbn [append] in Hy. symmetry in Hy. exact (Same _ _ Hy).
    + cbn [append] in Hy. injection Hy as <- Hy.
      destruct (append_eq_append _ _ _ _ Hy) as [v [[Hm Hb] | [Hw Hb]]].
      * destruct v as [|c v].
        -- rewrite append_nil_r in Hm. subst w.
           apply (str_in_false _ _ a EmptyString Hpre).
           rewrite sep_append. cbn [append]. now rewrite append_nil_r.
        -- cbn [append] in Hb. injection Hb as <- Hb.
           assert (T : Str.str_in OsPath.sep _mod = true).
           { apply str_in_iff. exists w, v. exact Hm. }
           congruence.
      * subst w. apply (str_in_false _ _ a v Hpre).
        rewrite sep_append. cbn [append]. exact Hp.
  - destruct w as [|c w].
    + cbn [append] in Hx. exact (Same _ _ Hx).
    + cbn [append] in Hx. injection Hx as <- Hx. exact (Inside _ _ Hx).
Qed.

End CaseFacts.

(** ** Facts about [main] *)

Section MainFacts.

Variable fs : filesystem.

(** No outcome of [check_mod] interrupts the loop of [main]: the entries
    are analysed one after the other. *)
Lemma check_all_mods_app (values1 values2 : list string)
    (all_data_paths : list (nat * string)) (base_mod_dir : string) :
  check_all_mods fs (values1 ++ values2)%list all_data_paths base_mod_dir
  = (check_all_mods fs values1 all_data_paths base_mod_dir
     ++ check_all_mods fs values2 all_data_paths base_mod_dir)%list.
Proof.
  induction values1 as [|v values1 IH]; [reflexivity |].
  cbn [app check_all_mods].
  destruct (Str.startswith v "data="); [| exact IH].
  destruct (String.eqb _ base_mod_dir); [exact IH |].
  cbn [app]. now rewrite IH.
Qed.

Lemma rstrip_by_keeps_prefix (p : ascii -> bool) (pre : string) :
  (forall c, Str.char_in c pre = true -> p c = false) ->
  forall s, Str.startswith s pre = true ->
            Str.startswith (Str.rstrip_by p s) pre = true.
Proof.
  induction pre as [|a pre IH]; intros H s S; [reflexivity |].
  destruct s as [|c s]; [discriminate |].
  cbn [Str.startswith] in S. apply andb_true_iff in S. destruct S as [Ec S].
  apply Ascii.eqb_eq in Ec. subst c.
  assert (Hp : p a = false).
  { apply H. cbn [Str.char_in]. now rewrite Ascii.eqb_refl. }
  assert (IH' : Str.startswith (Str.rstrip_by p s) pre = true).
  { apply IH; [| exact S]. intros c K. apply H. cbn [Str.char_in].
    rewrite K. apply orb_true_r. }
  cbn [Str.rstrip_by]. destruct (Str.rstrip_by p s) as [|d t].
  - rewrite Hp. cbn [Str.chr Str.startswith]. rewrite Ascii.eqb_refl.
    destruct pre; [reflexivity | discriminate].
  - cbn [Str.startswith]. now rewrite Ascii.eqb_refl.
Qed.

(** Stripping quotes and newlines leaves the key prefix in place. *)
Lemma strip_keeps_key (v : string) :
  Str.startswith v "data=" = true ->
  Str.startswith (Str.strip v quotes_and_newline) "data=" = true.
Proof.
  intros S. unfold Str.strip.
  destruct v as [|c v]; [discriminate |].
  assert (Ec : c = "d"%char).
  { cbn [Str.startswith] in S. apply andb_true_iff in S.
    now apply Ascii.eqb_eq. }
  subst c. cbn [Str.lstrip_by].
  change (Str.char_in "d" quotes_and_newline) with false. cbv iota.
  apply rstrip_by_keeps_prefix; [| exact S].
  intros c K. cbn [Str.char_in] in K. rewrite orb_false_r in K.
  repeat (apply orb_true_iff in K; destruct K as [K | K];
          [apply Ascii.eqb_eq in K; subst c; reflexivity |]).
  apply Ascii.eqb_eq in K; subst c; reflexivity.
Qed.

(** Unless the base directory itself starts with the key prefix, the
    comparison of line 295 never holds: every data line is analysed. *)
Lemma no_data_line_is_skipped (values : list string)
    (all_data_paths : list (nat * string)) (base_mod_dir : string) :
  Str.startswith base_mod_dir "data=" = false ->
  map data_mod_path (check_all_mods fs values all_data_paths base_mod_dir)
  = filter (fun v => Str.startswith v "data=") values.
Proof.
  intros B. induction values as [|v values IH]; [reflexivity |].
  cbn [check_all_mods filter].
  destruct (Str.startswith v "data=") eqn:S; [| exact IH].
  destruct (String.eqb_spec (Str.strip v quotes_and_newline) base_mod_dir)
    as [E | E].
  - apply strip_keeps_key in S. rewrite E in S. congruence.
  - cbn [map data_mod_path]. now rewrite IH.
Qed.

End MainFacts.

(** ** The walk when some file of the target is never matched *)

Section Survivor.

Variable fs : filesystem.
Variables _mod base_dir : string.

Lemma later_lists_cons (num : nat) (p : string) (rest : list (nat * string)) :
  later_lists fs _mod base_dir ((num, p) :: rest)
  = if String.eqb (mod_name_from_data_path p) _mod
    then later_lists fs _mod base_dir rest
    else get_mod_file_list fs (OsPath.join base_dir (mod_name_from_data_path p))
         :: later_lists fs _mod base_dir rest.
Proof.
  unfold later_lists. cbn [filter snd].
  now destruct (String.eqb (mod_name_from_data_path p) _mod).
Qed.

(** Once started, a walk in which the entry [f] of the target is never
    matched runs to the end of the load order, and what is left is the
    target's list minus the lists of the later mods, one after the other. *)
Lemma walk_with_survivor (f : string) (items : list (nat * string)) :
  forall mod1_files ow_by,
    In f mod1_files ->
    (forall l, In l (later_lists fs _mod base_dir items) -> ~ In f l) ->
    fst (walk_load_order fs _mod base_dir items true mod1_files ow_by)
    = CanStay (fold_left list_diff (later_lists fs _mod base_dir items)
                 mod1_files).
Proof.
  induction items as [|[num p] rest IH]; intros files ow Hf Hl; [reflexivity |].
  rewrite later_lists_cons in *.
  cbn [walk_load_order]. rewrite andb_false_r.
  destruct files as [|x files]; [contradiction |].
  cbn [List.length Nat.ltb Nat.leb].
  destruct (String.eqb (mod_name_from_data_path p) _mod).
  { rewrite fst_emit. now apply IH. }
  set (next := get_mod_file_list fs _) in *.
  assert (Hnext : ~ In f next) by (apply Hl; now left).
  assert (Hrest : forall l, In l (later_lists fs _mod base_dir rest) -> ~ In f l)
    by (intros l K; apply Hl; now right).
  cbn [fold_left].
  destruct (List.length next =? 0)%nat eqn:Z.
  { apply Nat.eqb_eq, length_zero_iff_nil in Z. rewrite Z, list_diff_nil.
    rewrite fst_emit. now apply IH. }
  destruct (overwrite_loop _ _ next (x :: files) ow) as [[files' ow'] evs] eqn:R.
  destruct (overwrite_loop_spec _ _ _ _ _ _ _ _ R) as (-> & _ & _).
  rewrite fst_emit. apply IH; [| exact Hrest].
  now apply list_diff_keeps.
Qed.

End Survivor.

(** ** The numbering of the configuration lines *)

Lemma read_lines_numbers (line_list : list string) :
  forall count,
    read_lines count line_list = number_from count (filter keeps line_list).
Proof.
  induction line_list as [|line rest IH]; intros count; [reflexivity |].
  cbn [read_lines filter]. fold (keeps line).
  destruct (keeps line); [| apply IH].
  unfold number_from. cbn [List.length seq combine]. f_equal. apply IH.
Qed.

(** ** The walk when the list of the target is exhausted *)

Section Exhaustion.

Variable fs : filesystem.
Variables _mod base_dir : string.

Lemma list_diff_empty (l : list string) : list_diff [] l = [].
Proof. induction l as [|x l IH]; [reflexivity | exact IH]. Qed.

Lemma contributes_empty (l : list string) : contributes [] l = false.
Proof. induction l as [|x l IH]; [reflexivity | exact IH]. Qed.

(** The list of overriding mods after the loop over the files of a later
    mod. *)
Lemma overwrite_loop_ow_by (next_mod : string) (next_mod_files : list string) :
  forall mod1_files ow_by,
    snd (fst (overwrite_loop _mod next_mod next_mod_files mod1_files ow_by))
    = if contributes mod1_files next_mod_files
         && negb (Str.mem next_mod ow_by)
      then (ow_by ++ [next_mod])%list else ow_by.
Proof.
  induction next_mod_files as [|f rest IH]; intros files ow; [reflexivity |].
  cbn [overwrite_loop contributes existsb].
  destruct (Str.mem f files) eqn:M; cbn [orb]; [| apply IH].
  specialize (IH (Str.remove f files)
                 (if Str.mem next_mod ow then ow else (ow ++ [next_mod])%list)).
  destruct (overwrite_loop _ _ rest _ _) as [[m o] evs]. cbn [fst snd] in *.
  rewrite IH. destruct (Str.mem next_mod ow) eqn:N; cbn [negb andb].
  - now rewrite N, andb_false_r.
  - assert (T : Str.mem next_mod (ow ++ [next_mod])%list = true).
    { apply mem_In, in_or_app. right. now left. }
    now rewrite T, andb_false_r.
Qed.

Lemma compare_with_exhausted (items : list (nat * string)) (ow_by : list string) :
  fold_left (compare_with fs _mod base_dir) items ([], ow_by) = ([], ow_by).
Proof.
  induction items as [|e items IH]; [reflexivity |].
  cbn [fold_left]. unfold compare_with at 2. cbn [fst snd].
  destruct (String.eqb _ _mod); [exact IH |].
  now rewrite list_diff_empty, contributes_empty.
Qed.

(** With nothing left, the next entry ends the walk. *)
Lemma walk_exhausted (e : nat * string) (rest : list (nat * string))
    (ow_by : list string) :
  walk_load_order fs _mod base_dir (e :: rest) true [] ow_by
  = (Overwritten ow_by, [MsgBlank]).
Proof.
  destruct e as [num p]. cbn [walk_load_order]. now rewrite andb_false_r.
Qed.

(** If the entries [mid] exhaust the list of the target and one more entry
    follows, the walk ends with the overriding mods collected over [mid]. *)
Lemma walk_exhausted_before_the_end (mid : list (nat * string))
    (e : nat * string) (rest : list (nat * string)) :
  forall mod1_files ow_by,
    fst (fold_left (compare_with fs _mod base_dir) mid (mod1_files, ow_by)) = [] ->
    fst (walk_load_order fs _mod base_dir (mid ++ e :: rest)%list true
           mod1_files ow_by)
    = Overwritten
        (snd (fold_left (compare_with fs _mod base_dir) mid (mod1_files, ow_by))).
Proof.
  induction mid as [|[num p] mid IH]; intros files ow H.
  - cbn [fold_left fst] in H. subst files. cbn [app fold_left snd].
    now rewrite walk_exhausted.
  - destruct files as [|x files].
    { rewrite compare_with_exhausted. cbn [app snd]. now rewrite walk_exhausted. }
    cbn [fold_left] in *.
    set (st := compare_with fs _mod base_dir (x :: files, ow) (num, p)) in *.
    cbn [app walk_load_order]. rewrite andb_false_r.
    cbn [List.length Nat.ltb Nat.leb].
    destruct (String.eqb (mod_name_from_data_path p) _mod) eqn:E.
    { assert (St : st = (x :: files, ow))
        by (subst st; unfold compare_with; cbn [snd]; now rewrite E).
      rewrite St in *. rewrite fst_emit. now apply IH. }
    set (next := get_mod_file_list fs _) in *.
    assert (St : st = (list_diff (x :: files) next,
                       if contributes (x :: files) next
                          && negb (Str.mem (mod_name_from_data_path p) ow)
                       then (ow ++ [mod_name_from_data_path p])%list else ow))
      by (subst st next; unfold compare_with; cbn [fst snd]; now rewrite E).
    destruct (List.length next =? 0)%nat eqn:Z.
    { apply Nat.eqb_eq, length_zero_iff_nil in Z. rewrite Z in St.
      cbn [contributes existsb andb] in St. rewrite list_diff_nil in St.
      rewrite St in *. rewrite fst_emit. now apply IH. }
    pose proof (overwrite_loop_ow_by (mod_name_from_data_path p) next
                  (x :: files) ow) as Ho.
    destruct (overwrite_loop _ _ next (x :: files) ow) as [[files' ow'] evs] eqn:R.
    destruct (overwrite_loop_spec _ _ _ _ _ _ _ _ R) as (-> & _ & _).
    cbn [fst snd] in Ho. subst ow'. rewrite St in *.
    rewrite fst_emit. now apply IH.
Qed.

(** [check_mod] reports a located target as overwritten when the entries
    [mid] after it exhaust its list and another entry [e] follows them. *)
Lemma overwritten_when_an_entry_follows
    (before : list (nat * string)) (num : nat) (p : string)
    (mid : list (nat * string)) (e : nat * string) (rest : list (nat * string)) :
  (forall x, In x before -> mentions _mod x = false) ->
  mentions _mod (num, p) = true ->
  get_mod_file_list fs (OsPath.join base_dir _mod) <> [] ->
  fst (fold_left (compare_with fs _mod base_dir) mid
         (get_mod_file_list fs (OsPath.join base_dir _mod), [])) = [] ->
  fst (check_mod fs _mod (before ++ (num, p) :: mid ++ e :: rest)%list base_dir)
  = Overwritten
      (snd (fold_left (compare_with fs _mod base_dir) mid
              (get_mod_file_list fs (OsPath.join base_dir _mod), []))).
Proof.
  intros Hb Hp N H. unfold check_mod.
  destruct (_ =? 0)%nat eqn:Z.
  { apply Nat.eqb_eq, length_zero_iff_nil in Z. contradiction. }
  rewrite fst_emit, walk_passes_over by exact Hb.
  rewrite walk_starts by exact Hp. rewrite fst_emit.
  now apply walk_exhausted_before_the_end.
Qed.

End Exhaustion.

(** * The properties *)

(** ** Enumeration *)

(** C9. A target whose enumeration is empty, in particular one whose
    directory does not exist, ends in [NoFiles]: [check_mod] returns
    [False] after the walk of the target's own directory, and no entry of
    the load order is looked at or enumerated. *)
Theorem empty_enumeration_ends_in_no_files
    (fs : filesystem) (_mod : string) (all_paths : list (nat * string))
    (base_dir : string) :
  resolve fs (OsPath.join base_dir _mod) = None
  \/ get_mod_file_list fs (OsPath.join base_dir _mod) = [] ->
  check_mod fs _mod all_paths base_dir
  = (NoFiles, [Walked (OsPath.join base_dir _mod)])
  /\ returned (fst (check_mod fs _mod all_paths base_dir)) = Some false.
Proof.
  intros H.
  assert (E : get_mod_file_list fs (OsPath.join base_dir _mod) = []).
  { destruct H as [H | H]; [now apply get_mod_file_list_missing | exact H]. }
  unfold check_mod. rewrite E. split; reflexivity.
Qed.

(** The mod [Q] has no directory below [/mods]. *)
Lemma empty_enumeration_ends_in_no_files_witness :
  resolve fs_xy (OsPath.join "/mods" "Q") = None
  /\ check_mod fs_xy "Q" order_ABC "/mods" = (NoFiles, [Walked "/mods/Q"]).
Proof.
  split; [reflexivity |].
  apply (empty_enumeration_ends_in_no_files fs_xy "Q" order_ABC "/mods").
  left. reflexivity.
Defined.

(** C2 (as the code has it).  The enumeration is a list with repetitions:
    every walked file below an allow-listed name contributes an entry, so
    the number of entries [name] is at least the number of such files
    whose lower-cased name is [name]; and the loop over the files of a
    later mod takes away, for every name, as many entries as the later
    list holds, as far as there are any: a difference of multisets. *)
Theorem enumeration_is_a_multiset
    (fs : filesystem) (mod_dir name : string)
    (_mod next_mod : string) (next_mod_files mod1_files ow_by : list string) :
  List.length (filter (counts_for name) (walked_files (os_walk fs mod_dir)))
  <= count_occ string_dec (get_mod_file_list fs mod_dir) name
  /\ count_occ string_dec
       (fst (fst (overwrite_loop _mod next_mod next_mod_files mod1_files ow_by)))
       name
     = count_occ string_dec mod1_files name
       - count_occ string_dec next_mod_files name.
Proof.
  split; [apply enumeration_count |].
  destruct (overwrite_loop _mod next_mod next_mod_files mod1_files ow_by)
    as [[files' ow'] evs] eqn:R.
  destruct (overwrite_loop_spec _ _ _ _ _ _ _ _ R) as (-> & _ & _).
  apply list_diff_count.
Qed.

(** C2 as stated fails: a mod with a file of the same name in two asset
    folders is enumerated with that name twice, and the walk removes the
    name once for each of two later mods. *)
Lemma same_name_is_listed_twice :
  get_mod_file_list fs_twice "/mods/A" = ["a.dds"; "z.nif"; "a.dds"]
  /\ ~ NoDup (get_mod_file_list fs_twice "/mods/A")
  /\ In (MsgOverwrites "B" "a.dds" "A")
        (snd (check_mod fs_twice "A" order_ABC "/mods"))
  /\ In (MsgOverwrites "C" "a.dds" "A")
        (snd (check_mod fs_twice "A" order_ABC "/mods")).
Proof.
  split; [reflexivity |]. split.
  - change (get_mod_file_list fs_twice "/mods/A")
      with ["a.dds"; "z.nif"; "a.dds"].
    intros H. inversion H as [|? ? N _]. apply N. right. now left.
  - split; vm_compute; tauto.
Qed.

(** ** The load-order index *)

(** C6 (as the code has it).  The index keeps exactly the lines that start
    with [data=] and do not contain, letter case aside, the text
    [data files] anywhere; the kept lines are numbered 1, 2, ... in file
    order, so a line that is not kept uses up no position. *)
Theorem index_numbers_the_kept_lines (line_list : list string) :
  read_openmw_cfg (Some line_list)
  = Done (combine (seq 1 (List.length (filter keeps line_list)))
            (filter keeps line_list)).
Proof.
  unfold read_openmw_cfg. now rewrite read_lines_numbers.
Qed.

(** C6 as stated fails: the value of this line is not the placeholder, yet
    the line is dropped because its path contains the placeholder text. *)
Lemma placeholder_text_anywhere_drops_the_line :
  spec_index [data_line "/mods/Foo/Data Files"]
  = [(1, data_line "/mods/Foo/Data Files")]
  /\ read_openmw_cfg (Some [data_line "/mods/Foo/Data Files"]) = Done [].
Proof. split; reflexivity. Qed.

(** C7 (as the code has it).  For a target with files, the walk starts
    right after the first entry of the load order whose raw line contains
    the path separator followed by the target's name (whatever follows the
    name in the line), and the position logged is that entry's; when no
    line contains it, no position is found. *)
Theorem walk_starts_after_first_mention
    (fs : filesystem) (_mod base_dir : string)
    (all_paths : list (nat * string)) :
  get_mod_file_list fs (OsPath.join base_dir _mod) <> [] ->
  (forall before num p after,
      all_paths = (before ++ (num, p) :: after)%list ->
      (forall e, In e before -> mentions _mod e = false) ->
      mentions _mod (num, p) = true ->
      check_mod fs _mod all_paths base_dir
      = emit [Walked (OsPath.join base_dir _mod); MsgFound _mod num]
          (walk_load_order fs _mod base_dir after true
             (get_mod_file_list fs (OsPath.join base_dir _mod)) []))
  /\ ((forall e, In e all_paths -> mentions _mod e = false) ->
      forall num, ~ In (MsgFound _mod num)
                      (snd (check_mod fs _mod all_paths base_dir))).
Proof.
  intros N.
  assert (Z : (List.length (get_mod_file_list fs (OsPath.join base_dir _mod))
               =? 0)%nat = false).
  { apply Nat.eqb_neq. intros K. now apply length_zero_iff_nil in K. }
  unfold check_mod. rewrite Z. split.
  - intros before num p after -> Hb Hp.
    rewrite walk_passes_over by exact Hb.
    rewrite walk_starts by exact Hp.
    unfold emit. cbn [fst snd app]. reflexivity.
  - intros H num. rewrite walk_never_starts by exact H.
    cbn [emit snd fst app]. intros [K | []]. discriminate.
Qed.

(** The walk for [Foo] in the load order [FooBar, Foo]. *)
Lemma walk_starts_after_first_mention_witness :
  get_mod_file_list fs_foo (OsPath.join "/mods" "Foo") <> []
  /\ check_mod fs_foo "Foo" order_foo "/mods"
     = emit [Walked "/mods/Foo"; MsgFound "Foo" 1]
         (walk_load_order fs_foo "Foo" "/mods" [(2, data_line "/mods/Foo")]
            true ["x"; "y"] []).
Proof.
  assert (N : get_mod_file_list fs_foo (OsPath.join "/mods" "Foo") <> [])
    by (vm_compute; discriminate).
  split; [exact N |].
  destruct (walk_starts_after_first_mention fs_foo "Foo" "/mods" order_foo N)
    as [H _].
  apply (H [] 1 (data_line "/mods/FooBar") [(2, data_line "/mods/Foo")]).
  - reflexivity.
  - intros e [].
  - reflexivity.
Defined.

(** C7 as stated fails: in [/mods/FooBar] the name [Foo] is not delimited
    by path separators, the first entry that has [Foo] as a piece of its
    path is at position 2, and the walk for [Foo] starts at position 1. *)
Lemma walk_starts_at_a_longer_name :
  spec_position_of "Foo" order_foo = Some 2
  /\ In (MsgFound "Foo" 1) (snd (check_mod fs_foo "Foo" order_foo "/mods"))
  /\ ~ In (MsgFound "Foo" 2) (snd (check_mod fs_foo "Foo" order_foo "/mods")).
Proof.
  split; [reflexivity |]. split.
  - vm_compute. tauto.
  - vm_compute. intros H.
    repeat (destruct H as [H | H]; [discriminate |]). exact H.
Qed.

(** ** The walk *)

(** C4 (as the code has it).  A target with files that no line of the load
    order mentions gets no status of its own: [check_mod] enumerates no
    other mod and ends as for a mod that must stay, with all the files of
    the target left; and the loop of [main] goes on with the next entry
    whatever the outcome. *)
Theorem unlocated_target_can_stay
    (fs : filesystem) (_mod : string) (all_paths : list (nat * string))
    (base_dir : string) :
  get_mod_file_list fs (OsPath.join base_dir _mod) <> [] ->
  (forall e, In e all_paths -> mentions _mod e = false) ->
  check_mod fs _mod all_paths base_dir
  = (CanStay (get_mod_file_list fs (OsPath.join base_dir _mod)),
     [Walked (OsPath.join base_dir _mod)])
  /\ (forall values1 values2 all_data_paths base_mod_dir,
        check_all_mods fs (values1 ++ values2)%list all_data_paths base_mod_dir
        = (check_all_mods fs values1 all_data_paths base_mod_dir
           ++ check_all_mods fs values2 all_data_paths base_mod_dir)%list).
Proof.
  intros N H. split; [| apply check_all_mods_app].
  assert (Z : (List.length (get_mod_file_list fs (OsPath.join base_dir _mod))
               =? 0)%nat = false).
  { apply Nat.eqb_neq. intros K. now apply length_zero_iff_nil in K. }
  unfold check_mod. rewrite Z, walk_never_starts by exact H. reflexivity.
Qed.

(** The mod [C] exists on disk and the load order is [A, B]. *)
Lemma unlocated_target_can_stay_witness :
  get_mod_file_list fs_xy (OsPath.join "/mods" "C") <> []
  /\ (forall e, In e order_AB -> mentions "C" e = false)
  /\ check_mod fs_xy "C" order_AB "/mods" = (CanStay ["y"], [Walked "/mods/C"]).
Proof.
  assert (N : get_mod_file_list fs_xy (OsPath.join "/mods" "C") <> [])
    by (vm_compute; discriminate).
  assert (H : forall e, In e order_AB -> mentions "C" e = false)
    by (intros e [<- | [<- | []]]; reflexivity).
  split; [exact N |]. split; [exact H |].
  apply (unlocated_target_can_stay fs_xy "C" order_AB "/mods" N H).
Defined.

(** C4 as stated fails: the end reached for a target that is in no line of
    the load order is the one reached for a located target that keeps a
    file, with the same report and the same returned value. *)
Lemma unlocated_target_ends_like_must_keep :
  (forall e, In e order_AB -> mentions "C" e = false)
  /\ In (MsgFound "C" 3) (snd (check_mod fs_xy "C" order_ABC "/mods"))
  /\ fst (check_mod fs_xy "C" order_AB "/mods") = CanStay ["y"]
  /\ fst (check_mod fs_xy "C" order_ABC "/mods") = CanStay ["y"]
  /\ final_report "C" (fst (check_mod fs_xy "C" order_AB "/mods"))
     = [RepBlank; RepCanStay "C" 1; RepLeftoverHeader; RepLeftover "y"].
Proof.
  split; [intros e [<- | [<- | []]]; reflexivity |].
  split; [vm_compute; tauto |].
  repeat split.
Qed.

(** C5.  Entries of the target's own name are skipped: such an entry,
    reached while files remain, leaves the remaining files and the list of
    overriding mods as they are and enumerates nothing; over a whole run,
    the target is never among the overriding mods, never compared with
    itself and never the mod that removes a file.  This holds for every
    load order, in particular when the target is declared twice or more. *)
Theorem self_entries_are_skipped
    (fs : filesystem) (_mod : string) (all_paths : list (nat * string))
    (base_dir : string) :
  (forall num p rest mod1_files ow_by,
      mod_name_from_data_path p = _mod ->
      mod1_files <> [] ->
      walk_load_order fs _mod base_dir ((num, p) :: rest) true mod1_files ow_by
      = emit [MsgBlank; MsgLoadOrder num (Str.rstrip p);
              MsgFilesLeft _mod (List.length mod1_files); MsgSkipping]
          (walk_load_order fs _mod base_dir rest true mod1_files ow_by))
  /\ (forall ow_by, fst (check_mod fs _mod all_paths base_dir)
                    = Overwritten ow_by -> ~ In _mod ow_by)
  /\ (forall m next_mod,
        In (MsgChecking m next_mod) (snd (check_mod fs _mod all_paths base_dir))
        -> next_mod <> _mod)
  /\ (forall next_mod _file m,
        In (MsgOverwrites next_mod _file m)
           (snd (check_mod fs _mod all_paths base_dir))
        -> next_mod <> _mod).
Proof.
  split; [intros; now apply walk_skips_self |].
  assert (Inv :
    (forall ow, fst (check_mod fs _mod all_paths base_dir) = Overwritten ow
                -> ~ In _mod ow)
    /\ Forall (not_from _mod) (snd (check_mod fs _mod all_paths base_dir))).
  { unfold check_mod. destruct (_ =? 0)%nat.
    - split; [discriminate | repeat constructor].
    - rewrite fst_emit, snd_emit.
      destruct (walk_not_from_self fs _mod base_dir all_paths false
                  (get_mod_file_list fs (OsPath.join base_dir _mod)) [])
        as [A B]; [intros [] |].
      split; [exact A | apply Forall_app; split; [repeat constructor | exact B]]. }
  destruct Inv as [A B]. rewrite Forall_forall in B.
  split; [exact A |]. split.
  - intros m next_mod K. exact (B _ K).
  - intros next_mod _file m K. exact (B _ K).
Qed.

(** The load order [A, B, A, C]: the second declaration of [A] is skipped,
    [B] and [C] are the mods compared with [A]. *)
Example second_declaration_is_skipped :
  filter (fun e => match e with
                   | MsgSkipping | MsgChecking _ _ | Walked _ => true
                   | _ => false
                   end)
         (snd (check_mod fs_xy "A" order_ABAC "/mods"))
  = [ Walked "/mods/A"; MsgChecking "A" "B"; Walked "/mods/B"; MsgSkipping;
      MsgChecking "A" "C"; Walked "/mods/C" ].
Proof. reflexivity. Qed.

(** C3 (as the code has it).  For a target located in the load order, if
    some entry of its list occurs in the list of no later mod of another
    name, [check_mod] runs to the end and reports that the mod can stay;
    the remaining file count is the number of entries left after the lists
    of the later mods have been taken away one after the other, an entry of
    a later list cancelling one equal entry of the target.  When no name is
    repeated in the target's list, what is left is exactly the files that
    no later mod matches. *)
Theorem survivor_keeps_the_mod
    (fs : filesystem) (_mod base_dir : string)
    (before : list (nat * string)) (num : nat) (p : string)
    (after : list (nat * string)) (f : string) :
  (forall e, In e before -> mentions _mod e = false) ->
  mentions _mod (num, p) = true ->
  In f (get_mod_file_list fs (OsPath.join base_dir _mod)) ->
  (forall l, In l (later_lists fs _mod base_dir after) -> ~ In f l) ->
  let files := get_mod_file_list fs (OsPath.join base_dir _mod) in
  let later := later_lists fs _mod base_dir after in
  let result :=
    fst (check_mod fs _mod (before ++ (num, p) :: after)%list base_dir) in
  result = CanStay (fold_left list_diff later files)
  /\ In (RepCanStay _mod (List.length (fold_left list_diff later files)))
        (final_report _mod result)
  /\ (NoDup files -> fold_left list_diff later files = unmatched files later).
Proof.
  intros Hb Hp Hf Hl files later result.
  assert (R : result = CanStay (fold_left list_diff later files)).
  { subst result. unfold check_mod. fold files.
    destruct (List.length files =? 0)%nat eqn:Z.
    - apply Nat.eqb_eq, length_zero_iff_nil in Z.
      subst files. rewrite Z in Hf. contradiction.
    - rewrite fst_emit, walk_passes_over by exact Hb.
      rewrite walk_starts by exact Hp. rewrite fst_emit.
      now apply walk_with_survivor with (f := f). }
  split; [exact R |]. split.
  - rewrite R. cbn [final_report]. right. now left.
  - apply fold_list_diff_NoDup.
Qed.

(** The second scenario of the specification: [A] provides [x], [y] and
    [z], of which [z] is matched by neither [B] nor [C]. *)
Lemma survivor_keeps_the_mod_witness :
  In "z" (get_mod_file_list fs_xyz (OsPath.join "/mods" "A"))
  /\ fst (check_mod fs_xyz "A" order_ABC "/mods") = CanStay ["z"].
Proof.
  assert (Hf : In "z" (get_mod_file_list fs_xyz (OsPath.join "/mods" "A")))
    by (vm_compute; tauto).
  split; [exact Hf |].
  destruct (survivor_keeps_the_mod fs_xyz "A" "/mods" [] 1
              (data_line "/mods/A")
              [(2, data_line "/mods/B"); (3, data_line "/mods/C")] "z")
    as [H _].
  - intros e [].
  - reflexivity.
  - exact Hf.
  - intros l K. vm_compute in K.
    destruct K as [<- | [<- | []]]; intros [E | []]; discriminate.
  - exact H.
Defined.

(** C3 as stated fails: [A] lists [a.dds] twice, [B] matches the name
    [a.dds], the only file of [A] that [B] does not match is [z.nif], and
    the remaining file count is 2. *)
Lemma leftover_count_includes_repetitions :
  unmatched (get_mod_file_list fs_twice "/mods/A")
    (later_lists fs_twice "A" "/mods" [(2, data_line "/mods/B")])
  = ["z.nif"]
  /\ fst (check_mod fs_twice "A" order_AB "/mods") = CanStay ["z.nif"; "a.dds"]
  /\ In (RepCanStay "A" 2)
        (final_report "A" (fst (check_mod fs_twice "A" order_AB "/mods"))).
Proof.
  split; [reflexivity |]. split; [reflexivity |]. vm_compute. tauto.
Qed.

(** The check for an exhausted list is made when the next entry of the
    load order is reached: the last entry never ends the walk with
    [Overwritten]. *)
Lemma last_entry_cannot_report_overwritten
    (fs : filesystem) (_mod base_dir : string) (num : nat) (p : string)
    (start_checking : bool) (mod1_files ow_by ow : list string) :
  mod1_files <> [] ->
  fst (walk_load_order fs _mod base_dir [(num, p)] start_checking
         mod1_files ow_by) <> Overwritten ow.
Proof.
  intros N. cbn [walk_load_order].
  destruct (_ && negb start_checking); [discriminate |].
  destruct start_checking; [| discriminate].
  destruct mod1_files as [|x files]; [contradiction |].
  cbn [List.length Nat.ltb Nat.leb].
  destruct (String.eqb _ _mod); [discriminate |].
  destruct (_ =? 0)%nat; [discriminate |].
  destruct (overwrite_loop _ _ _ _ _) as [[? ?] ?]. discriminate.
Qed.

(** C1, on the scenario of the specification: load order [A, B, C], [A]
    provides [x] and [y], [B] provides [x], [C] provides [y].  Every file
    of [A] is matched by a later mod, the last of them by the last entry
    of the load order; [check_mod] leaves the loop with an empty list and
    reports that [A] can stay with 0 files left, returning [None], where
    the claim has the outcome [Overwritten ["B"; "C"]]. *)
Theorem scenario_ABC_is_reported_as_staying :
  unmatched (get_mod_file_list fs_xy "/mods/A")
    (later_lists fs_xy "A" "/mods"
       [(2, data_line "/mods/B"); (3, data_line "/mods/C")]) = []
  /\ fst (check_mod fs_xy "A" order_ABC "/mods") = CanStay []
  /\ returned (fst (check_mod fs_xy "A" order_ABC "/mods")) = None
  /\ final_report "A" (fst (check_mod fs_xy "A" order_ABC "/mods"))
     = [RepBlank; RepCanStay "A" 0; RepLeftoverHeader]
  /\ fst (check_mod fs_xy "A"
            (order_ABC ++ [(4, data_line "/mods/D")])%list "/mods")
     = Overwritten ["B"; "C"].
Proof. repeat split. Qed.

(** C8, on a configuration whose first data path is the base directory
    [/mods]: the line is not skipped.  [main] takes [mods] as the name of
    a mod, calls [check_mod] for it, and goes on with the other lines in
    file order. *)
Theorem base_directory_is_analysed :
  match main fs_xy (Some cfg_with_base) "/mods" None with
  | Done analyses =>
      map data_mod_path analyses = cfg_with_base
      /\ map single_mod analyses = ["mods"; "A"; "B"]
      /\ map (fun a => fst (checked a)) analyses
         = [NoFiles; CanStay ["y"]; CanStay ["x"]]
  | Exit _ => False
  | Uncaught _ => False
  end.
Proof. vm_compute. repeat split. Qed.

(** C10 (as the code has it).  The lookup of the target compares letter
    by letter, on the whole raw line.  Take a load order with a line
    [pre/name post] whose [name] differs from the target in letter case
    only, the target, a name without separator, being mentioned neither by
    [pre] nor by another line: then no position is found for the target
    and the walk never starts, so the outcome is never [Overwritten].
    File names, in contrast, are compared in lower case: every enumerated
    name is its own lower-case form. *)
Theorem lookup_is_case_sensitive
    (fs : filesystem) (_mod name pre post base_dir : string) (num : nat)
    (before after : list (nat * string)) :
  Str.lower _mod = Str.lower name ->
  _mod <> name ->
  Str.str_in OsPath.sep _mod = false ->
  Str.str_in (OsPath.sep ++ _mod) pre = false ->
  Str.str_in OsPath.sep post = false ->
  (forall e, In e (before ++ after)%list -> mentions _mod e = false) ->
  let all_paths :=
    (before ++ (num, (pre ++ OsPath.sep ++ name ++ post)%string) :: after)%list
  in
  (forall e, In e all_paths -> mentions _mod e = false)
  /\ (forall n, ~ In (MsgFound _mod n)
                   (snd (check_mod fs _mod all_paths base_dir)))
  /\ (forall ow_by,
        fst (check_mod fs _mod all_paths base_dir) <> Overwritten ow_by)
  /\ (forall mod_dir f,
        In f (get_mod_file_list fs mod_dir) -> Str.lower f = f).
Proof.
  intros Hlow Hne Hmod Hpre Hpost Hrest all_paths.
  assert (H : forall e, In e all_paths -> mentions _mod e = false).
  { intros e K. subst all_paths. apply in_app_or in K.
    destruct K as [K | [<- | K]].
    - apply Hrest, in_or_app. now left.
    - unfold mentions. cbn [snd]. now apply case_variant_not_mentioned.
    - apply Hrest, in_or_app. now right. }
  split; [exact H |].
  assert (C : check_mod fs _mod all_paths base_dir
              = (NoFiles, [Walked (OsPath.join base_dir _mod)])
              \/ check_mod fs _mod all_paths base_dir
                 = (CanStay (get_mod_file_list fs (OsPath.join base_dir _mod)),
                    [Walked (OsPath.join base_dir _mod)])).
  { unfold check_mod. destruct (_ =? 0)%nat; [now left | right].
    now rewrite walk_never_starts by exact H. }
  split; [| split].
  - intros n K. destruct C as [C | C]; rewrite C in K;
      destruct K as [K | []]; discriminate.
  - intros ow K. destruct C as [C | C]; rewrite C in K; discriminate.
  - intros mod_dir f. apply enumerated_lower.
Qed.

(** C10 as stated fails: the directory [a] differs from the declared
    [A] in letter case only, and yet a position is found for [a], through
    the line of another mod whose name starts with [a] in the first load
    order, through the directory [/home/a] above the mods in the second;
    in both [a] is then reported as overwritten by [B]. *)
Lemma case_variant_is_found_elsewhere :
  Str.lower "a" = Str.lower "A"
  /\ "a" <> "A"
  /\ In (MsgFound "a" 2) (snd (check_mod fs_case "a" order_armor "/mods"))
  /\ fst (check_mod fs_case "a" order_armor "/mods") = Overwritten ["B"]
  /\ In (MsgFound "a" 1)
        (snd (check_mod fs_home "a" order_home "/home/a/mods"))
  /\ fst (check_mod fs_home "a" order_home "/home/a/mods") = Overwritten ["B"].
Proof.
  split; [reflexivity |]. split; [discriminate |].
  split; [vm_compute; tauto |]. split; [reflexivity |].
  split; [vm_compute; tauto | reflexivity].
Qed.

(** The directory is [a], the configuration declares [/mods/A]: the walk
    never starts, although [B] provides the only file of [a]. *)
Lemma lookup_is_case_sensitive_witness :
  (forall e, In e order_AB -> mentions "a" e = false)
  /\ fst (check_mod fs_case "a" order_AB "/mods") = CanStay ["x"].
Proof.
  destruct (lookup_is_case_sensitive fs_case "a" "A"
              ("data=" ++ Str.DQ ++ "/mods") (Str.DQ ++ Str.NL) "/mods" 1
              [] [(2, data_line "/mods/B")]) as [H _].
  - reflexivity.
  - discriminate.
  - reflexivity.
  - reflexivity.
  - reflexivity.
  - intros e [<- | []]. reflexivity.
  - split; [exact H | reflexivity].
Defined.

(** * Further properties of the script *)

(** ** Where the target sits in the load order *)

Section Location.

Variable fs : filesystem.
Variables _mod base_dir : string.

(** Either no line mentions the target, or there is a first line that
    does. *)
Lemma first_mention (all_paths : list (nat * string)) :
  (forall e, In e all_paths -> mentions _mod e = false)
  \/ exists before num p after,
       all_paths = (before ++ (num, p) :: after)%list
       /\ (forall e, In e before -> mentions _mod e = false)
       /\ mentions _mod (num, p) = true.
Proof.
  induction all_paths as [|[num p] rest IH].
  - left. intros e [].
  - destruct (mentions _mod (num, p)) eqn:M.
    + right. exists [], num, p, rest. repeat split; [intros e [] | exact M].
    + destruct IH as [IH | (before & n & q & after & -> & Hb & Hq)].
      * left. intros e [<- | K]; [exact M | now apply IH].
      * right. exists ((num, p) :: before), n, q, after.
        repeat split; [| exact Hq].
        intros e [<- | K]; [exact M | now apply Hb].
Qed.

(** [check_mod] for a located target with files, in terms of the walk over
    the entries after it. *)
Lemma check_mod_located (before : list (nat * string)) (num : nat)
    (p : string) (after : list (nat * string)) :
  (forall e, In e before -> mentions _mod e = false) ->
  mentions _mod (num, p) = true ->
  get_mod_file_list fs (OsPath.join base_dir _mod) <> [] ->
  check_mod fs _mod (before ++ (num, p) :: after)%list base_dir
  = emit [Walked (OsPath.join base_dir _mod); MsgFound _mod num]
      (walk_load_order fs _mod base_dir after true
         (get_mod_file_list fs (OsPath.join base_dir _mod)) []).
Proof.
  intros Hb Hp N. unfold check_mod.
  destruct (_ =? 0)%nat eqn:Z.
  { apply Nat.eqb_eq, length_zero_iff_nil in Z. contradiction. }
  rewrite walk_passes_over by exact Hb. rewrite walk_starts by exact Hp.
  reflexivity.
Qed.

End Location.

(** X1.  Entries of the load order that come before the first line
    mentioning the target have no influence on [check_mod]: removing them
    changes neither the outcome nor anything that is logged or walked. *)
Theorem earlier_entries_are_irrelevant
    (fs : filesystem) (_mod base_dir : string)
    (before rest : list (nat * string)) :
  (forall e, In e before -> mentions _mod e = false) ->
  check_mod fs _mod (before ++ rest)%list base_dir
  = check_mod fs _mod rest base_dir.
Proof.
  intros H. unfold check_mod. destruct (_ =? 0)%nat; [reflexivity |].
  now rewrite walk_passes_over.
Qed.

(** The entry of [A] before [B] plays no part in the analysis of [B]. *)
Lemma earlier_entries_are_irrelevant_witness :
  (forall e, In e [(1, data_line "/mods/A")] -> mentions "B" e = false)
  /\ check_mod fs_xy "B" order_ABC "/mods"
     = check_mod fs_xy "B"
         [(2, data_line "/mods/B"); (3, data_line "/mods/C")] "/mods".
Proof.
  assert (H : forall e, In e [(1, data_line "/mods/A")] -> mentions "B" e = false)
    by (intros e [<- | []]; reflexivity).
  split; [exact H |].
  exact (earlier_entries_are_irrelevant fs_xy "B" "/mods"
           [(1, data_line "/mods/A")]
           [(2, data_line "/mods/B"); (3, data_line "/mods/C")] H).
Defined.

(** X2.  The report "has been overwritten" is sound: when [check_mod] ends
    with it, the target is mentioned by a line of the load order and every
    name of its file list occurs in the file list of some entry after that
    line whose derived name is not the target's. *)
Theorem overwritten_report_is_sound
    (fs : filesystem) (_mod base_dir : string)
    (all_paths : list (nat * string)) (ow_by : list string) :
  fst (check_mod fs _mod all_paths base_dir) = Overwritten ow_by ->
  exists before num p after,
    all_paths = (before ++ (num, p) :: after)%list
    /\ (forall e, In e before -> mentions _mod e = false)
    /\ mentions _mod (num, p) = true
    /\ forall f, In f (get_mod_file_list fs (OsPath.join base_dir _mod)) ->
                 exists l, In l (later_lists fs _mod base_dir after) /\ In f l.
Proof.
  intros H.
  destruct (first_mention _mod all_paths)
    as [U | (before & num & p & after & -> & Hb & Hp)].
  - exfalso. unfold check_mod in H. destruct (_ =? 0)%nat; [discriminate |].
    rewrite fst_emit, walk_never_starts in H by exact U. discriminate.
  - exists before, num, p, after. repeat split; try assumption.
    intros f Hf.
    destruct (existsb (Str.mem f) (later_lists fs _mod base_dir after)) eqn:E.
    + apply existsb_exists in E. destruct E as [l [Hl M]].
      exists l. split; [exact Hl | now apply mem_In].
    + exfalso.
      assert (N : get_mod_file_list fs (OsPath.join base_dir _mod) <> [])
        by (intros K; rewrite K in Hf; contradiction).
      rewrite check_mod_located in H by assumption.
      rewrite fst_emit in H.
      rewrite (walk_with_survivor fs _mod base_dir f) in H;
        [discriminate | exact Hf |].
      intros l Hl K.
      assert (T : existsb (Str.mem f) (later_lists fs _mod base_dir after) = true).
      { apply existsb_exists. exists l. split; [exact Hl | now apply mem_In]. }
      congruence.
Qed.

(** [A] is reported as overwritten in the load order [A, B, C, D]. *)
Lemma overwritten_report_is_sound_witness :
  fst (check_mod fs_xy "A" order_ABCD "/mods") = Overwritten ["B"; "C"]
  /\ exists before num p after,
       order_ABCD = (before ++ (num, p) :: after)%list
       /\ (forall e, In e before -> mentions "A" e = false)
       /\ mentions "A" (num, p) = true
       /\ forall f, In f (get_mod_file_list fs_xy (OsPath.join "/mods" "A")) ->
                    exists l, In l (later_lists fs_xy "A" "/mods" after)
                              /\ In f l.
Proof.
  assert (H : fst (check_mod fs_xy "A" order_ABCD "/mods")
              = Overwritten ["B"; "C"]) by reflexivity.
  split; [exact H |].
  exact (overwritten_report_is_sound fs_xy "A" "/mods" order_ABCD
           ["B"; "C"] H).
Defined.

(** ** The state of the walk, entry by entry *)

Section Steps.

Variable fs : filesystem.
Variables _mod base_dir : string.

(** While files remain, the outcome of the walk is the outcome of the walk
    over the rest of the load order, started from what [compare_with]
    makes of the state. *)
Lemma walk_step_outcome (e : nat * string) (rest : list (nat * string))
    (mod1_files ow_by : list string) :
  mod1_files <> [] ->
  fst (walk_load_order fs _mod base_dir (e :: rest) true mod1_files ow_by)
  = fst (walk_load_order fs _mod base_dir rest true
           (fst (compare_with fs _mod base_dir (mod1_files, ow_by) e))
           (snd (compare_with fs _mod base_dir (mod1_files, ow_by) e))).
Proof.
  intros N. destruct e as [num p]. destruct mod1_files as [|x files];
    [contradiction |].
  cbn [walk_load_order]. rewrite andb_false_r.
  cbn [List.length Nat.ltb Nat.leb]. unfold compare_with. cbn [fst snd].
  destruct (String.eqb (mod_name_from_data_path p) _mod).
  { now rewrite fst_emit. }
  set (next := get_mod_file_list fs _).
  destruct (List.length next =? 0)%nat eqn:Z.
  { apply Nat.eqb_eq, length_zero_iff_nil in Z. rewrite Z.
    now rewrite fst_emit. }
  pose proof (overwrite_loop_ow_by _mod (mod_name_from_data_path p) next
                (x :: files) ow_by) as Ho.
  destruct (overwrite_loop _ _ next (x :: files) ow_by)
    as [[files' ow'] evs] eqn:R.
  destruct (overwrite_loop_spec _ _ _ _ _ _ _ _ R) as (-> & _ & _).
  cbn [fst snd] in Ho. subst ow'. now rewrite fst_emit.
Qed.

(** A walk that ends with [Overwritten] has exhausted the list of the
    target at some entry that is followed by another one. *)
Lemma walk_overwritten_inv (after : list (nat * string)) :
  forall mod1_files ow_by ow,
    fst (walk_load_order fs _mod base_dir after true mod1_files ow_by)
    = Overwritten ow ->
    exists mid e rest,
      after = (mid ++ e :: rest)%list
      /\ fold_left (compare_with fs _mod base_dir) mid (mod1_files, ow_by)
         = ([], ow).
Proof.
  induction after as [|e rest IH]; intros files ow0 ow H; [discriminate |].
  destruct files as [|x files].
  - rewrite walk_exhausted in H. injection H as <-.
    exists [], e, rest. split; reflexivity.
  - rewrite walk_step_outcome in H by discriminate.
    destruct (IH _ _ _ H) as (mid & e' & rest' & -> & F).
    exists (e :: mid), e', rest'. split; [reflexivity |].
    cbn [fold_left]. rewrite <- F. f_equal. now destruct (compare_with _ _ _ _ _).
Qed.

(** The loop over the files of a later mod logs an overwrite exactly when
    the later mod has a file of the target. *)
Lemma overwrite_loop_logs (next_mod : string) (next_mod_files : list string) :
  forall mod1_files ow_by,
    contributes mod1_files next_mod_files = true
    <-> exists f, In (MsgOverwrites next_mod f _mod)
                     (snd (overwrite_loop _mod next_mod next_mod_files
                             mod1_files ow_by)).
Proof.
  induction next_mod_files as [|f rest IH]; intros files ow.
  - cbn. split; [discriminate | intros [f []]].
  - cbn [overwrite_loop contributes existsb].
    destruct (Str.mem f files) eqn:M; cbn [orb].
    + destruct (overwrite_loop _ _ rest _ _) as [[m o] evs]. cbn [snd].
      split; [intros _; exists f; now left | reflexivity].
    + apply IH.
Qed.

(** Every logged overwrite takes one entry off the list of the target. *)
Lemma overwrite_loop_length (next_mod : string) (next_mod_files : list string) :
  forall mod1_files ow_by files' ow_by' evs,
    overwrite_loop _mod next_mod next_mod_files mod1_files ow_by
    = (files', ow_by', evs) ->
    List.length files' + List.length evs = List.length mod1_files
    /\ filter is_overwrite evs = evs.
Proof.
  induction next_mod_files as [|f rest IH];
    intros files ow files' ow' evs H.
  - cbn in H. injection H as <- <- <-. split; [cbn; lia | reflexivity].
  - cbn [overwrite_loop] in H. destruct (Str.mem f files) eqn:M.
    + destruct (overwrite_loop _ _ rest _ _) as [[m o] es] eqn:R.
      injection H as <- <- <-.
      destruct (IH _ _ _ _ _ R) as [L F].
      apply mem_In, remove_length in M. split.
      * cbn [List.length]. lia.
      * cbn [filter is_overwrite]. now rewrite F.
    + now apply IH in H.
Qed.

(** Messages other than overwrites in front of a trace do not matter when
    looking for an overwrite. *)
Lemma overwrite_after (pre tr : list event) (m f x : string) :
  filter is_overwrite pre = [] ->
  (In (MsgOverwrites m f x) (pre ++ tr)%list <-> In (MsgOverwrites m f x) tr).
Proof.
  intros H. rewrite in_app_iff. split; [| now right].
  intros [K | K]; [| exact K].
  assert (T : In (MsgOverwrites m f x) (filter is_overwrite pre))
    by (apply filter_In; split; [exact K | reflexivity]).
  rewrite H in T. contradiction.
Qed.

(** The list of overriding mods at the end of a walk: no mod twice, and a
    mod is listed when it was listed at the start or has logged an
    overwrite. *)
Lemma walk_ow_by (items : list (nat * string)) :
  forall start_checking mod1_files ow_by ow,
    NoDup ow_by ->
    fst (walk_load_order fs _mod base_dir items start_checking mod1_files ow_by)
    = Overwritten ow ->
    NoDup ow
    /\ forall m,
        In m ow <->
        In m ow_by
        \/ exists f,
             In (MsgOverwrites m f _mod)
                (snd (walk_load_order fs _mod base_dir items start_checking
                        mod1_files ow_by)).
Proof.
  induction items as [|[num p] rest IH]; intros sc files ow0 ow N H;
    [discriminate |].
  cbn [walk_load_order] in *.
  destruct (Str.str_in (OsPath.sep ++ _mod) p && negb sc).
  { rewrite fst_emit in H. rewrite snd_emit.
    destruct (IH _ _ _ _ N H) as [A B]. split; [exact A |].
    intros m. rewrite B. apply or_iff_compat_l.
    split; intros [f K]; exists f; revert K; now apply overwrite_after. }
  destruct sc; [| now apply IH].
  destruct (0 <? List.length files)%nat.
  2:{ injection H as <-. split; [exact N |]. intros m. cbn [snd]. split.
      - now left.
      - intros [K | [f [K | []]]]; [exact K | discriminate]. }
  destruct (String.eqb (mod_name_from_data_path p) _mod).
  { rewrite fst_emit in H. rewrite snd_emit.
    destruct (IH _ _ _ _ N H) as [A B]. split; [exact A |].
    intros m. rewrite B. apply or_iff_compat_l.
    split; intros [f K]; exists f; revert K; now apply overwrite_after. }
  set (next_mod := mod_name_from_data_path p) in *.
  set (next := get_mod_file_list fs _) in *.
  destruct (List.length next =? 0)%nat.
  { rewrite fst_emit in H. rewrite snd_emit.
    destruct (IH _ _ _ _ N H) as [A B]. split; [exact A |].
    intros m. rewrite B. apply or_iff_compat_l.
    split; intros [f K]; exists f; revert K; now apply overwrite_after. }
  pose proof (overwrite_loop_ow_by _mod next_mod next files ow0) as Ho.
  pose proof (overwrite_loop_logs next_mod next files ow0) as Hl.
  destruct (overwrite_loop _mod next_mod next files ow0)
    as [[files' ow'] evs] eqn:R.
  destruct (overwrite_loop_spec _ _ _ _ _ _ _ _ R) as (_ & _ & He).
  cbn [fst snd] in Ho, Hl.
  rewrite fst_emit in H. rewrite snd_emit.
  assert (N' : NoDup ow').
  { subst ow'. destruct (contributes files next); cbn [andb]; [| exact N].
    destruct (Str.mem next_mod ow0) eqn:M; cbn [negb]; [exact N |].
    apply mem_false in M. apply NoDup_app; [exact N | repeat constructor; intros [] |].
    intros y Hy [<- | []]. exact (M Hy). }
  destruct (IH _ _ _ _ N' H) as [A B]. split; [exact A |].
  intros m. rewrite B. clear B IH A H.
  assert (Ev : forall f, In (MsgOverwrites m f _mod)
                 (([MsgBlank; MsgLoadOrder num (Str.rstrip p);
                    MsgFilesLeft _mod (List.length files);
                    MsgChecking _mod next_mod;
                    Walked (OsPath.join base_dir next_mod);
                    MsgFilesToCheck next_mod (List.length next)]
                   ++ evs ++ [MsgDoesNotOverwrite next_mod _mod])
                  ++ snd (walk_load_order fs _mod base_dir rest true files' ow'))%list
               <-> In (MsgOverwrites m f _mod) evs
                   \/ In (MsgOverwrites m f _mod)
                        (snd (walk_load_order fs _mod base_dir rest true
                                files' ow'))).
  { intros f. rewrite !in_app_iff. cbn [In]. split.
    - intros [[K | [K | K]] | K]; auto.
      + repeat (destruct K as [K | K]; [discriminate |]). contradiction.
      + destruct K as [K | []]. discriminate.
    - intros [K | K]; auto. }
  assert (Lst : In m ow' <-> In m ow0 \/ exists f, In (MsgOverwrites m f _mod) evs).
  { subst ow'. destruct (contributes files next) eqn:C; cbn [andb].
    - destruct (proj1 Hl eq_refl) as [g Hg].
      destruct (Str.mem next_mod ow0) eqn:M; cbn [negb].
      + apply mem_In in M. split; [now left |].
        intros [K | [f K]]; [exact K |].
        destruct (He _ K) as [h [E _]]. injection E as -> _. exact M.
      + rewrite in_app_iff. cbn [In]. split.
        * intros [K | [<- | []]]; [now left | right; now exists g].
        * intros [K | [f K]]; [now left |].
          destruct (He _ K) as [h [E _]]. injection E as -> _. right. now left.
    - split; [now left |]. intros [K | [f K]]; [exact K |].
      destruct (He _ K) as [h [E _]]. injection E as -> ->.
      assert (T : false = true) by (apply Hl; now exists h).
      discriminate. }
  rewrite Lst. split.
  - intros [[K | [f K]] | [f K]].
    + now left.
    + right. exists f. apply Ev. now left.
    + right. exists f. apply Ev. now right.
  - intros [K | [f K]].
    + left. now left.
    + apply Ev in K. destruct K as [K | K].
      * left. right. now exists f.
      * right. now exists f.
Qed.

(** The files of the target are either still there at the end of the walk
    or have been logged as overwritten, one message for each. *)
Lemma walk_conserves (items : list (nat * string)) :
  forall start_checking mod1_files ow_by,
    List.length (filter is_overwrite
                   (snd (walk_load_order fs _mod base_dir items start_checking
                           mod1_files ow_by)))
    + match fst (walk_load_order fs _mod base_dir items start_checking
                   mod1_files ow_by) with
      | CanStay remaining => List.length remaining
      | _ => 0
      end
    = List.length mod1_files.
Proof.
  induction items as [|[num p] rest IH]; intros sc files ow; [reflexivity |].
  cbn [walk_load_order].
  destruct (Str.str_in (OsPath.sep ++ _mod) p && negb sc).
  { rewrite fst_emit, snd_emit, filter_app. cbn [filter is_overwrite app].
    apply IH. }
  destruct sc; [| apply IH].
  destruct files as [|x files]; [reflexivity |].
  cbn [List.length Nat.ltb Nat.leb].
  destruct (String.eqb (mod_name_from_data_path p) _mod).
  { rewrite fst_emit, snd_emit, filter_app. cbn [filter is_overwrite app].
    apply (IH true (x :: files) ow). }
  destruct (List.length _ =? 0)%nat.
  { rewrite fst_emit, snd_emit, filter_app. cbn [filter is_overwrite app].
    apply (IH true (x :: files) ow). }
  destruct (overwrite_loop _ _ _ (x :: files) ow) as [[files' ow'] evs] eqn:R.
  destruct (overwrite_loop_length _ _ _ _ _ _ _ R) as [L F].
  rewrite fst_emit, snd_emit. rewrite !filter_app.
  cbn [filter is_overwrite app]. rewrite F, app_nil_r, length_app.
  specialize (IH true files' ow'). cbn [List.length] in L. lia.
Qed.

End Steps.

(** X3.  For a located target with files, [check_mod] ends with "has been
    overwritten" exactly when the entries after the target can be cut as
    [mid], [e], [rest] such that comparing with the entries of [mid]
    leaves no file of the target; the mods listed are then those that
    [mid] collects, in the order in which they first took a file.  An
    entry [e] has to follow: exhausting the list with the last entry of
    the load order is not enough. *)
Theorem overwritten_exactly_when_exhausted_early
    (fs : filesystem) (_mod base_dir : string)
    (before : list (nat * string)) (num : nat) (p : string)
    (after : list (nat * string)) (ow : list string) :
  (forall e, In e before -> mentions _mod e = false) ->
  mentions _mod (num, p) = true ->
  get_mod_file_list fs (OsPath.join base_dir _mod) <> [] ->
  (fst (check_mod fs _mod (before ++ (num, p) :: after)%list base_dir)
   = Overwritten ow
   <-> exists mid e rest,
         after = (mid ++ e :: rest)%list
         /\ fold_left (compare_with fs _mod base_dir) mid
              (get_mod_file_list fs (OsPath.join base_dir _mod), [])
            = ([], ow)).
Proof.
  intros Hb Hp N. rewrite check_mod_located by assumption.
  rewrite fst_emit. split.
  - apply walk_overwritten_inv.
  - intros (mid & e & rest & -> & F).
    rewrite walk_exhausted_before_the_end; now rewrite F.
Qed.

(** In the load order [A, B, C, D] the entries [B] and [C] exhaust the
    files of [A], and [D] follows. *)
Lemma overwritten_exactly_when_exhausted_early_witness :
  mentions "A" (1, data_line "/mods/A") = true
  /\ get_mod_file_list fs_xy (OsPath.join "/mods" "A") <> []
  /\ fst (check_mod fs_xy "A" order_ABCD "/mods") = Overwritten ["B"; "C"].
Proof.
  assert (N : get_mod_file_list fs_xy (OsPath.join "/mods" "A") <> [])
    by (vm_compute; discriminate).
  split; [reflexivity |]. split; [exact N |].
  apply (overwritten_exactly_when_exhausted_early fs_xy "A" "/mods" [] 1
           (data_line "/mods/A")
           [(2, data_line "/mods/B"); (3, data_line "/mods/C");
            (4, data_line "/mods/D")] ["B"; "C"]).
  - intros e [].
  - reflexivity.
  - exact N.
  - exists [(2, data_line "/mods/B"); (3, data_line "/mods/C")],
      (4, data_line "/mods/D"), [].
    split; reflexivity.
Defined.

(** X4.  The mods listed under "has been overwritten by the following
    mods" are listed once each, and a mod is listed exactly when the run
    has logged that it overwrites a file of the target. *)
Theorem overriding_mods_are_those_that_overwrote
    (fs : filesystem) (_mod base_dir : string)
    (all_paths : list (nat * string)) (ow_by : list string) :
  fst (check_mod fs _mod all_paths base_dir) = Overwritten ow_by ->
  NoDup ow_by
  /\ forall m,
      In m ow_by <->
      exists f, In (MsgOverwrites m f _mod)
                   (snd (check_mod fs _mod all_paths base_dir)).
Proof.
  unfold check_mod. destruct (_ =? 0)%nat; [discriminate |].
  rewrite fst_emit, snd_emit. intros H.
  destruct (walk_ow_by fs _mod base_dir all_paths false _ [] ow_by
              (NoDup_nil _) H) as [A B].
  split; [exact A |]. intros m. rewrite B. split.
  - intros [[] | [f K]]. exists f. now right.
  - intros [f [K | K]]; [discriminate |]. right. now exists f.
Qed.

(** [B] and [C] each overwrite a file of [A]. *)
Lemma overriding_mods_are_those_that_overwrote_witness :
  fst (check_mod fs_xy "A" order_ABCD "/mods") = Overwritten ["B"; "C"]
  /\ NoDup ["B"; "C"]
  /\ forall m,
      In m ["B"; "C"] <->
      exists f, In (MsgOverwrites m f "A")
                   (snd (check_mod fs_xy "A" order_ABCD "/mods")).
Proof.
  assert (H : fst (check_mod fs_xy "A" order_ABCD "/mods")
              = Overwritten ["B"; "C"]) by reflexivity.
  split; [exact H |].
  exact (overriding_mods_are_those_that_overwrote fs_xy "A" "/mods"
           order_ABCD ["B"; "C"] H).
Defined.

(** X5.  No file of the target is lost or invented by [check_mod]: the
    number of "overwrites" messages plus the remaining file count is the
    number of entries of the target's list; when the mod is reported as
    overwritten, there is one such message for each entry of the list. *)
Theorem files_are_overwritten_or_left
    (fs : filesystem) (_mod base_dir : string)
    (all_paths : list (nat * string)) :
  let overwrites :=
    List.length (filter is_overwrite
                   (snd (check_mod fs _mod all_paths base_dir))) in
  let files := get_mod_file_list fs (OsPath.join base_dir _mod) in
  match fst (check_mod fs _mod all_paths base_dir) with
  | NoFiles => files = [] /\ overwrites = 0
  | Overwritten _ => overwrites = List.length files
  | CanStay remaining => overwrites + List.length remaining = List.length files
  end.
Proof.
  cbv zeta. unfold check_mod. destruct (_ =? 0)%nat eqn:Z.
  - apply Nat.eqb_eq, length_zero_iff_nil in Z. now split.
  - rewrite fst_emit, snd_emit. cbn [app filter is_overwrite].
    pose proof (walk_conserves fs _mod base_dir all_paths false
                  (get_mod_file_list fs (OsPath.join base_dir _mod)) []) as C.
    destruct (fst (walk_load_order _ _ _ _ _ _ _)) eqn:O.
    + exfalso. revert O. clear. generalize false.
      generalize (get_mod_file_list fs (OsPath.join base_dir _mod)).
      generalize (@nil string).
      induction all_paths as [|[num p] rest IH]; intros ow files sc;
        [discriminate |].
      cbn [walk_load_order].
      destruct (_ && negb sc); [rewrite fst_emit; apply IH |].
      destruct sc; [| apply IH].
      destruct (0 <? _)%nat; [| discriminate].
      destruct (String.eqb _ _mod); [rewrite fst_emit; apply IH |].
      destruct (_ =? 0)%nat; [rewrite fst_emit; apply IH |].
      destruct (overwrite_loop _ _ _ _ _) as [[? ?] ?].
      rewrite fst_emit. apply IH.
    + lia.
    + exact C.
Qed.

(** ** The enumeration, counted *)

Lemma hits_exactly (h : string -> bool) (x name : string) (ds : list string) :
  count_occ string_dec (flat_map (fun d => if h d then [x] else []) ds) name
  = if String.eqb x name then List.length (filter h ds) else 0.
Proof.
  induction ds as [|d ds IH]; cbn [flat_map filter].
  - now destruct (String.eqb x name).
  - rewrite count_occ_app, IH. destruct (h d); [| reflexivity].
    cbn [count_occ List.length app].
    destruct (String.eqb_spec x name) as [E | E];
      destruct (string_dec x name); try contradiction; reflexivity.
Qed.

(** X6.  [get_mod_file_list] lists a walked file once for every
    allow-listed name that occurs in its lower-cased full path, under its
    lower-cased base name: the number of entries [name] is the sum, over
    the walked files whose lower-cased name is [name], of the number of
    such names.  A file below no allow-listed name is not listed, a file
    whose path shows two of them is listed twice, and no file is listed
    more often than there are allow-listed names. *)
Theorem enumeration_counts_hits
    (fs : filesystem) (mod_dir name : string) :
  count_occ string_dec (get_mod_file_list fs mod_dir) name
  = list_sum
      (map (fun rf => if String.eqb (Str.lower (snd rf)) name
                      then hits rf else 0)
           (walked_files (os_walk fs mod_dir)))
  /\ forall rf, hits rf <= List.length OK_DIRS.
Proof.
  split.
  - rewrite get_mod_file_list_by_file.
    induction (walked_files (os_walk fs mod_dir)) as [|rf l IH];
      [reflexivity |].
    cbn [flat_map map list_sum fold_right]. rewrite count_occ_app.
    fold (list_sum (map (fun rf => if String.eqb (Str.lower (snd rf)) name
                                   then hits rf else 0) l)).
    rewrite <- IH. f_equal. unfold ok_dir_hits, hits. apply hits_exactly.
  - intros rf. unfold hits. apply filter_length_le.
Qed.

(** ** The runs of [main] *)

Lemma map_snd_number_from (lines : list string) (count : nat) :
  map snd (number_from count lines) = lines.
Proof.
  unfold number_from. revert count.
  induction lines as [|l lines IH]; intros count; [reflexivity |].
  cbn [List.length seq combine map snd]. now rewrite IH.
Qed.

Lemma kept_lines_have_the_key (lines : list string) :
  filter (fun v => Str.startswith v "data=") (filter keeps lines)
  = filter keeps lines.
Proof.
  apply forallb_filter_id, forallb_forall. intros v K.
  apply filter_In in K. destruct K as [_ K]. unfold keeps in K.
  now apply andb_true_iff in K.
Qed.

(** X7.  [main] exits exactly when the configuration file is missing or
    holds no data path that is kept, and the exit status is then 1,
    whatever the mode; in every other case it runs to the end. *)
Theorem main_exits_without_data_paths
    (fs : filesystem) (cfg : option (list string)) (base_mod_dir : string)
    (mod_dir_name : option string) :
  (main fs cfg base_mod_dir mod_dir_name = Exit 1
   <-> match cfg with
       | None => True
       | Some line_list => filter keeps line_list = []
       end)
  /\ (forall code, main fs cfg base_mod_dir mod_dir_name = Exit code ->
                   code = 1).
Proof.
  unfold main, read_openmw_cfg.
  destruct cfg as [line_list |]; cbn [check_openmw_cfg_path].
  2:{ split; [split; [trivial | reflexivity] |].
      intros code H. now injection H as <-. }
  rewrite read_lines_numbers, map_snd_number_from.
  destruct (filter keeps line_list) as [|l kept] eqn:K; cbn [List.length Nat.eqb].
  - split; [split; reflexivity |]. intros code H. now injection H as <-.
  - assert (E : forall code,
               match mod_dir_name, set_base_mod_dir base_mod_dir with
               | Some (String c m as single_mod), Some base =>
                   Done [ {| data_mod_path := EmptyString;
                             single_mod := single_mod;
                             _mod_files_list :=
                               get_mod_file_list fs (OsPath.join base single_mod);
                             checked :=
                               check_mod fs single_mod
                                 (number_from 1 (l :: kept)) base |} ]
               | Some (String c m), None => Uncaught TypeError
               | _, Some base =>
                   Done (check_all_mods fs (l :: kept)
                           (number_from 1 (l :: kept)) base)
               | _, None =>
                   if existsb (fun data_mod_path =>
                                 Str.startswith data_mod_path "data=")
                              (l :: kept)
                   then Uncaught TypeError
                   else Done []
               end <> Exit code).
    { intros code.
      destruct mod_dir_name as [[|c m] |];
        destruct (set_base_mod_dir base_mod_dir);
        try destruct (existsb _ (l :: kept)); discriminate. }
    split.
    + split; [intros H; now apply E in H | discriminate].
    + intros code H. now apply E in H.
Qed.

(** X8.  Without [-m], and for a base directory that is not empty and
    does not itself start with [data=], [main] calls [check_mod] once for
    every kept line of the configuration file, in file order, each time
    with the whole load order and with the name that [pathlib] gives for
    the line. *)
Theorem main_checks_every_kept_line
    (fs : filesystem) (line_list : list string) (base_mod_dir : string) :
  base_mod_dir <> EmptyString ->
  Str.startswith base_mod_dir "data=" = false ->
  filter keeps line_list <> [] ->
  exists analyses,
    main fs (Some line_list) base_mod_dir None = Done analyses
    /\ map data_mod_path analyses = filter keeps line_list
    /\ forall a, In a analyses ->
         single_mod a
         = OsPath.path_name (Str.strip (data_mod_path a) quotes_and_newline)
         /\ checked a
            = check_mod fs (single_mod a) (read_lines 1 line_list) base_mod_dir.
Proof.
  intros NE B N. unfold main, read_openmw_cfg. cbn [check_openmw_cfg_path].
  apply String.eqb_neq in NE. unfold set_base_mod_dir. rewrite NE.
  set (index := read_lines 1 line_list).
  assert (V : map snd index = filter keeps line_list)
    by (subst index; now rewrite read_lines_numbers, map_snd_number_from).
  rewrite V.
  destruct (filter keeps line_list) as [|l kept] eqn:K; [contradiction |].
  cbn [List.length Nat.eqb]. eexists. split; [reflexivity |]. split.
  - rewrite no_data_line_is_skipped by exact B.
    rewrite <- K. apply kept_lines_have_the_key.
  - generalize (l :: kept). clear. intros values a.
    induction values as [|v values IH]; [intros [] |].
    cbn [check_all_mods].
    destruct (Str.startswith v "data="); [| exact IH].
    destruct (String.eqb _ base_mod_dir); [exact IH |].
    intros [<- | H]; [split; reflexivity | now apply IH].
Qed.

(** The configuration whose first data path is the base directory. *)
Lemma main_checks_every_kept_line_witness :
  "/mods" <> EmptyString
  /\ Str.startswith "/mods" "data=" = false
  /\ filter keeps cfg_with_base <> []
  /\ exists analyses,
       main fs_xy (Some cfg_with_base) "/mods" None = Done analyses
       /\ map data_mod_path analyses = filter keeps cfg_with_base
       /\ forall a, In a analyses ->
            single_mod a
            = OsPath.path_name (Str.strip (data_mod_path a) quotes_and_newline)
            /\ checked a
               = check_mod fs_xy (single_mod a) (read_lines 1 cfg_with_base)
                   "/mods".
Proof.
  assert (NE : "/mods" <> EmptyString) by discriminate.
  assert (B : Str.startswith "/mods" "data=" = false) by reflexivity.
  assert (N : filter keeps cfg_with_base <> []) by (vm_compute; discriminate).
  split; [exact NE |]. split; [exact B |]. split; [exact N |].
  exact (main_checks_every_kept_line fs_xy cfg_with_base "/mods" NE B N).
Defined.

(** ** The mod name derived from a configuration line *)

Section DerivedNames.

Lemma string_of_list_app (l1 l2 : list ascii) :
  string_of_list_ascii (l1 ++ l2)%list
  = string_of_list_ascii l1 ++ string_of_list_ascii l2.
Proof. induction l1 as [|c l1 IH]; cbn; [reflexivity | now rewrite IH]. Qed.

Lemma of_rev_cons (c : ascii) (cur : list ascii) :
  Str.of_rev (c :: cur) = Str.of_rev cur ++ Str.chr c.
Proof. unfold Str.of_rev. cbn [rev]. apply string_of_list_app. Qed.

(** A string without occurrence of the separator is one piece. *)
Lemma split_aux_none (sep t : string) :
  Str.str_in sep t = false ->
  forall cur, Str.split_aux sep 0 cur t = [Str.of_rev cur ++ t].
Proof.
  induction t as [|c t IH]; intros H cur.
  - cbn. now rewrite append_nil_r.
  - cbn [Str.str_in] in H. apply orb_false_iff in H. destruct H as [H1 H2].
    cbn [Str.split_aux]. rewrite H1, (IH H2), of_rev_cons, append_assoc.
    reflexivity.
Qed.

(** The last piece of a split at ["/"] is what follows the last ["/"]. *)
Lemma split_aux_slash (t : string) :
  Str.str_in OsPath.sep t = false ->
  forall u cur, exists pieces,
    Str.split_aux OsPath.sep 0 cur (u ++ OsPath.sep ++ t) = (pieces ++ [t])%list.
Proof.
  intros H. induction u as [|c u IH]; intros cur.
  - exists [Str.of_rev cur]. cbn. now rewrite (split_aux_none _ _ H).
  - cbn [append Str.split_aux Str.startswith OsPath.sep String.length Nat.sub].
    destruct (Ascii.eqb c "/"); cbn [andb].
    + destruct (IH []) as [pieces E]. exists (Str.of_rev cur :: pieces).
      cbn [app]. f_equal. exact E.
    + apply IH.
Qed.

Lemma last_piece_slash (u t : string) :
  Str.str_in OsPath.sep t = false ->
  Str.last_piece (Str.split (u ++ OsPath.sep ++ t) OsPath.sep) = t.
Proof.
  intros H. unfold Str.split, Str.last_piece.
  destruct (split_aux_slash t H u []) as [pieces ->]. apply last_last.
Qed.

(** Removing a character that does not occur changes nothing, and removal
    goes through concatenation. *)
Lemma replace_chr_app (c : ascii) (a b : string) :
  Str.replace_aux (Str.chr c) EmptyString 0 (a ++ b)
  = Str.replace_aux (Str.chr c) EmptyString 0 a
    ++ Str.replace_aux (Str.chr c) EmptyString 0 b.
Proof.
  induction a as [|x a IH]; [reflexivity |].
  cbn [append Str.replace_aux Str.startswith Str.chr String.length Nat.sub].
  destruct (Ascii.eqb x c); cbn [andb append]; now rewrite IH.
Qed.

Lemma replace_chr_absent (c : ascii) (s : string) :
  Str.str_in (Str.chr c) s = false ->
  Str.replace_aux (Str.chr c) EmptyString 0 s = s.
Proof.
  induction s as [|x s IH]; intros H; [reflexivity |].
  cbn [Str.str_in Str.startswith Str.chr] in H.
  apply orb_false_iff in H. destruct H as [H1 H2].
  cbn [Str.replace_aux Str.startswith Str.chr]. rewrite H1.
  now rewrite (IH H2).
Qed.

Lemma rstrip_by_snoc (p : ascii -> bool) (c : ascii) (s : string) :
  p c = true -> Str.rstrip_by p (s ++ Str.chr c) = Str.rstrip_by p s.
Proof.
  intros H. induction s as [|x s IH].
  - cbn. now rewrite H.
  - cbn [append Str.rstrip_by]. now rewrite IH.
Qed.

Lemma rstrip_by_app_keep (p : ascii -> bool) (a s : string) :
  Str.rstrip_by p s = s -> s <> EmptyString ->
  Str.rstrip_by p (a ++ s) = a ++ s.
Proof.
  intros H N. induction a as [|x a IH]; [exact H |].
  cbn [append Str.rstrip_by]. rewrite IH.
  destruct (a ++ s) eqn:E; [| reflexivity].
  destruct a; [cbn in E; contradiction | discriminate].
Qed.

Lemma endswith_iff (s suf : string) :
  Str.endswith s suf = true <-> exists a, s = a ++ suf.
Proof.
  induction s as [|c s IH].
  - cbn [Str.endswith]. rewrite orb_false_r, String.eqb_eq. split.
    + intros <-. now exists EmptyString.
    + intros [a H]. destruct a; [exact H | discriminate].
  - cbn [Str.endswith]. rewrite orb_true_iff, String.eqb_eq, IH. split.
    + intros [<- | [a ->]]; [now exists EmptyString | now exists (String c a)].
    + intros [a H]. destruct a as [|x a]; [now left |].
      right. injection H as _ H. now exists a.
Qed.

Lemma chr_in_of_longer (c : ascii) (pre s : string) :
  Str.str_in (pre ++ Str.chr c) s = true -> Str.str_in (Str.chr c) s = true.
Proof.
  intros H. apply str_in_iff in H. destruct H as [a [b H]].
  apply str_in_iff. exists (a ++ pre), b.
  now rewrite H, !append_assoc.
Qed.

(** The key with its quote does not occur after the key of a quoted line
    whose path has no quote and does not end with [data=]. *)
Lemma key_not_in_tail (path : string) :
  Str.str_in Str.DQ path = false ->
  Str.endswith path "data=" = false ->
  Str.str_in ("data=" ++ Str.DQ) (path ++ Str.DQ ++ Str.NL) = false.
Proof.
  intros Hq He.
  destruct (Str.str_in ("data=" ++ Str.DQ) (path ++ Str.DQ ++ Str.NL)) eqn:E;
    [exfalso | reflexivity].
  apply str_in_iff in E. destruct E as [a [b E]].
  rewrite (append_assoc "data=" Str.DQ b), <- (append_assoc a "data=") in E.
  assert (End : forall a', path = a' ++ "data=" -> False).
  { intros a' K.
    assert (T : Str.endswith path "data=" = true)
      by (apply endswith_iff; now exists a').
    congruence. }
  destruct (append_eq_append _ _ _ _ E) as [w [[Hp Hy] | [Ha Hx]]].
  - destruct w as [|c w].
    + rewrite append_nil_r in Hp. exact (End _ Hp).
    + cbn in Hy. injection Hy as <- _.
      apply (str_in_false _ _ (a ++ "data=") w Hq). exact Hp.
  - destruct w as [|c w].
    + rewrite append_nil_r in Ha. symmetry in Ha. exact (End _ Ha).
    + cbn in Hx. injection Hx as _ Hx.
      destruct w as [|c' w]; [discriminate |].
      injection Hx as _ Hx. destruct w; discriminate.
Qed.

End DerivedNames.

(** X9.  For a configuration line [data="dir/name"], quoted or not, whose
    path holds no double quote and does not end with [data=], and whose
    last segment [name] holds no separator and ends with no white space,
    [mod_name_from_data_path] gives back [name]. *)
Theorem derived_name_is_the_last_segment (dir name : string) :
  Str.str_in Str.DQ (dir ++ OsPath.sep ++ name) = false ->
  Str.endswith (dir ++ OsPath.sep ++ name) "data=" = false ->
  Str.str_in OsPath.sep name = false ->
  Str.rstrip name = name ->
  mod_name_from_data_path (data_line (dir ++ OsPath.sep ++ name)) = name
  /\ mod_name_from_data_path ("data=" ++ dir ++ OsPath.sep ++ name ++ Str.NL)
     = name.
Proof.
  intros Hq He Hs Hr.
  assert (Hqn : Str.str_in Str.DQ name = false).
  { change Str.DQ with (Str.chr Str.dquote) in *.
    rewrite !chr_in_append in Hq. apply orb_false_iff in Hq.
    destruct Hq as [_ Hq]. apply orb_false_iff in Hq. tauto. }
  assert (Hqd : Str.str_in Str.DQ dir = false).
  { change Str.DQ with (Str.chr Str.dquote) in *.
    rewrite !chr_in_append in Hq. apply orb_false_iff in Hq. tauto. }
  assert (Tail : forall t, Str.str_in OsPath.sep t = false ->
                           Str.str_in OsPath.sep (name ++ t) = false).
  { intros t Ht. change OsPath.sep with (Str.chr "/") in *.
    now rewrite chr_in_append, Hs, Ht. }
  assert (Fin : forall t,
             Str.rstrip (Str.replace (name ++ t ++ Str.NL) Str.DQ EmptyString)
             = Str.rstrip (name ++ Str.replace t Str.DQ EmptyString)).
  { intros t. unfold Str.replace, Str.DQ.
    rewrite !replace_chr_app, (replace_chr_absent _ name Hqn).
    change (Str.replace_aux (Str.chr Str.dquote) EmptyString 0 Str.NL)
      with Str.NL.
    rewrite <- append_assoc. unfold Str.rstrip, Str.NL.
    now rewrite rstrip_by_snoc. }
  unfold mod_name_from_data_path. split.
  - unfold data_line.
    change (Str.split ("data=" ++ Str.DQ ++ (dir ++ OsPath.sep ++ name)
                       ++ Str.DQ ++ Str.NL) ("data=" ++ Str.DQ))
      with (EmptyString
            :: Str.split_aux ("data=" ++ Str.DQ) 0 []
                 ((dir ++ OsPath.sep ++ name) ++ Str.DQ ++ Str.NL)).
    rewrite (split_aux_none _ _ (key_not_in_tail _ Hq He)).
    cbn [Str.last_piece last Str.of_rev rev string_of_list_ascii append].
    rewrite !append_assoc.
    rewrite last_piece_slash by (apply Tail; reflexivity).
    rewrite (Fin Str.DQ). cbn [append]. now rewrite append_nil_r.
  - assert (K : Str.str_in ("data=" ++ Str.DQ)
                  ("data=" ++ dir ++ OsPath.sep ++ name ++ Str.NL) = false).
    { destruct (Str.str_in ("data=" ++ Str.DQ)
                  ("data=" ++ dir ++ OsPath.sep ++ name ++ Str.NL)) eqn:E;
        [exfalso | reflexivity].
      apply (chr_in_of_longer Str.dquote "data=") in E.
      change Str.DQ with (Str.chr Str.dquote) in *.
      change OsPath.sep with (Str.chr "/") in E.
      rewrite !chr_in_append, Hqd, Hqn in E. discriminate. }
    unfold Str.split at 2. rewrite (split_aux_none _ _ K).
    cbn [Str.last_piece last Str.of_rev rev string_of_list_ascii append].
    change (Str.split _ OsPath.sep)
      with (Str.split (("data=" ++ dir) ++ OsPath.sep ++ name ++ Str.NL)
              OsPath.sep).
    rewrite last_piece_slash by (apply Tail; reflexivity).
    pose proof (Fin EmptyString) as F. cbn [append] in F. rewrite F.
    cbn. now rewrite append_nil_r.
Qed.

(** The line of the mod [Foo] below [/mods]. *)
Lemma derived_name_is_the_last_segment_witness :
  Str.rstrip "Foo" = "Foo"
  /\ mod_name_from_data_path (data_line ("/mods" ++ OsPath.sep ++ "Foo")) = "Foo".
Proof.
  split; [reflexivity |].
  apply (derived_name_is_the_last_segment "/mods" "Foo"); reflexivity.
Defined.

(** A last segment that ends with [data=] is lost: the derived name is
    empty. *)
Example derived_name_of_a_key_like_segment :
  mod_name_from_data_path (data_line "/mods/data=") = EmptyString.
Proof. reflexivity. Qed.

(** What [main] makes of a quoted line before it compares it with the base
    directory: the closing quote and the end of line go, the key stays. *)
Lemma strip_data_line (dir name : string) :
  name <> EmptyString ->
  Str.rstrip_by (fun c => Str.char_in c quotes_and_newline) name = name ->
  Str.strip (data_line (dir ++ OsPath.sep ++ name)) quotes_and_newline
  = ("data=" ++ Str.DQ ++ dir) ++ OsPath.sep ++ name.
Proof.
  intros N H. unfold Str.strip.
  change (Str.lstrip_by _ (data_line (dir ++ OsPath.sep ++ name)))
    with (data_line (dir ++ OsPath.sep ++ name)).
  replace (data_line (dir ++ OsPath.sep ++ name))
    with ((((("data=" ++ Str.DQ ++ dir) ++ OsPath.sep) ++ name)
             ++ Str.chr Str.dquote) ++ Str.chr Str.newline).
  2:{ unfold data_line, Str.DQ, Str.NL. now rewrite !append_assoc. }
  rewrite !rstrip_by_snoc by reflexivity.
  rewrite rstrip_by_app_keep by assumption. now rewrite append_assoc.
Qed.

(** X10.  In the loop of [main], a quoted line [data="dir/name"] whose
    last segment [name] is not empty, is not ["."], holds no separator and
    ends with neither a quote nor a newline is analysed under the name
    [name]. *)
Theorem main_names_the_mod_by_its_last_segment
    (fs : filesystem) (dir name : string)
    (all_data_paths : list (nat * string)) (base_mod_dir : string) :
  Str.startswith base_mod_dir "data=" = false ->
  Str.str_in OsPath.sep name = false ->
  name <> EmptyString ->
  name <> "." ->
  Str.rstrip_by (fun c => Str.char_in c quotes_and_newline) name = name ->
  map single_mod
      (check_all_mods fs [data_line (dir ++ OsPath.sep ++ name)]
         all_data_paths base_mod_dir)
  = [name].
Proof.
  intros B Hs N D H. cbn [check_all_mods].
  change (Str.startswith (data_line (dir ++ OsPath.sep ++ name)) "data=")
    with true. cbv iota.
  rewrite strip_data_line by assumption.
  destruct (String.eqb_spec (("data=" ++ Str.DQ ++ dir) ++ OsPath.sep ++ name)
              base_mod_dir) as [E | E].
  { rewrite <- E in B. discriminate. }
  cbn [map single_mod]. f_equal.
  unfold OsPath.path_name, OsPath.parts, Str.split.
  destruct (split_aux_slash name Hs ("data=" ++ Str.DQ ++ dir) [])
    as [pieces ->].
  rewrite filter_app. cbn [filter].
  apply String.eqb_neq in N, D. rewrite N, D. cbn [negb andb].
  apply last_last.
Qed.

(** The line of the mod [Foo] below [/mods]. *)
Lemma main_names_the_mod_by_its_last_segment_witness :
  Str.startswith "/mods" "data=" = false
  /\ map single_mod
        (check_all_mods fs_foo [data_line ("/mods" ++ OsPath.sep ++ "Foo")]
           order_foo "/mods")
     = ["Foo"].
Proof.
  split; [reflexivity |].
  apply (main_names_the_mod_by_its_last_segment fs_foo "/mods" "Foo"
           order_foo "/mods"); try reflexivity; discriminate.
Defined.

(** Once the walk has started, no position is logged any more. *)
Lemma walk_started_logs_no_position
    (fs : filesystem) (_mod base_dir : string) (items : list (nat * string)) :
  forall mod1_files ow_by m n,
    ~ In (MsgFound m n)
         (snd (walk_load_order fs _mod base_dir items true mod1_files ow_by)).
Proof.
  induction items as [|[num p] rest IH]; intros files ow m n; [intros [] |].
  cbn [walk_load_order]. rewrite andb_false_r.
  destruct (0 <? List.length files)%nat.
  2:{ intros [K | []]. discriminate. }
  destruct (String.eqb (mod_name_from_data_path p) _mod).
  { rewrite snd_emit. intros K. apply in_app_or in K. destruct K as [K | K].
    - repeat (destruct K as [K | K]; [discriminate |]). exact K.
    - exact (IH _ _ _ _ K). }
  destruct (List.length _ =? 0)%nat.
  { rewrite snd_emit. intros K. apply in_app_or in K. destruct K as [K | K].
    - repeat (destruct K as [K | K]; [discriminate |]). exact K.
    - exact (IH _ _ _ _ K). }
  destruct (overwrite_loop _ _ _ files ow) as [[files' ow'] evs] eqn:R.
  destruct (overwrite_loop_spec _ _ _ _ _ _ _ _ R) as (_ & _ & He).
  rewrite snd_emit. intros K. apply in_app_or in K. destruct K as [K | K].
  - apply in_app_or in K. destruct K as [K | K].
    + repeat (destruct K as [K | K]; [discriminate |]). exact K.
    + apply in_app_or in K. destruct K as [K | [K | []]]; [| discriminate].
      destruct (He _ K) as [f [E _]]. discriminate.
  - exact (IH _ _ _ _ K).
Qed.

(** X11.  A mod with files whose own quoted line [data="dir/name"] is in
    the load order is always located: [check_mod] logs a position for it,
    that position is the position of the first line of the load order
    that mentions the name, which is the mod's own line or a line before
    it, and no other position is logged. *)
Theorem declared_mod_is_located
    (fs : filesystem) (dir name base_dir : string) (num : nat)
    (all_paths : list (nat * string)) :
  In (num, data_line (dir ++ OsPath.sep ++ name)) all_paths ->
  get_mod_file_list fs (OsPath.join base_dir name) <> [] ->
  exists before n line after,
    all_paths = (before ++ (n, line) :: after)%list
    /\ (forall e, In e before -> mentions name e = false)
    /\ mentions name (n, line) = true
    /\ In (num, data_line (dir ++ OsPath.sep ++ name)) ((n, line) :: after)
    /\ In (MsgFound name n) (snd (check_mod fs name all_paths base_dir))
    /\ forall n', In (MsgFound name n')
                      (snd (check_mod fs name all_paths base_dir)) ->
                   n' = n.
Proof.
  intros Hin N.
  assert (M : mentions name (num, data_line (dir ++ OsPath.sep ++ name)) = true).
  { unfold mentions, data_line. cbn [snd]. apply str_in_iff.
    exists ("data=" ++ Str.DQ ++ dir), (Str.DQ ++ Str.NL).
    now rewrite !append_assoc. }
  destruct (first_mention name all_paths)
    as [U | (before & n & p & after & E & Hb & Hp)].
  - rewrite (U _ Hin) in M. discriminate.
  - exists before, n, p, after. subst all_paths.
    split; [reflexivity |]. split; [exact Hb |]. split; [exact Hp |].
    split.
    { apply in_app_or in Hin. destruct Hin as [K | K]; [| exact K].
      rewrite (Hb _ K) in M. discriminate. }
    rewrite check_mod_located by assumption.
    rewrite snd_emit. split; [right; now left |].
    intros n' K. apply in_app_or in K. destruct K as [[K | [K | []]] | K].
    + discriminate.
    + now injection K as <-.
    + exfalso. exact (walk_started_logs_no_position _ _ _ _ _ _ _ _ K).
Qed.

(** [Foo] in the load order [FooBar, Foo]: the position logged is that of
    the line of [FooBar], the first one that mentions [Foo]. *)
Lemma declared_mod_is_located_witness :
  In (2, data_line ("/mods" ++ OsPath.sep ++ "Foo")) order_foo
  /\ get_mod_file_list fs_foo (OsPath.join "/mods" "Foo") <> []
  /\ exists before n line after,
       order_foo = (before ++ (n, line) :: after)%list
       /\ (forall e, In e before -> mentions "Foo" e = false)
       /\ mentions "Foo" (n, line) = true
       /\ In (2, data_line ("/mods" ++ OsPath.sep ++ "Foo")) ((n, line) :: after)
       /\ In (MsgFound "Foo" n) (snd (check_mod fs_foo "Foo" order_foo "/mods"))
       /\ forall n', In (MsgFound "Foo" n')
                         (snd (check_mod fs_foo "Foo" order_foo "/mods")) ->
                      n' = n.
Proof.
  assert (H : In (2, data_line ("/mods" ++ OsPath.sep ++ "Foo")) order_foo)
    by (right; now left).
  assert (N : get_mod_file_list fs_foo (OsPath.join "/mods" "Foo") <> [])
    by (vm_compute; discriminate).
  split; [exact H |]. split; [exact N |].
  exact (declared_mod_is_located fs_foo "/mods" "Foo" "/mods" 2 order_foo H N).
Defined.

(** ** A mod directory whose own path shows an allow-listed name *)

Section AllowListedRoot.

Lemma startswith_app (a b : string) : Str.startswith (a ++ b) a = true.
Proof. apply startswith_iff. now exists b. Qed.

Lemma startswith_trans (r m top : string) :
  Str.startswith r m = true -> Str.startswith m top = true ->
  Str.startswith r top = true.
Proof.
  rewrite !startswith_iff. intros [x ->] [y ->]. exists (y ++ x).
  apply append_assoc.
Qed.

Lemma join_starts (a b : string) :
  Str.startswith b OsPath.sep = false ->
  Str.startswith (OsPath.join a b) a = true.
Proof.
  intros H. unfold OsPath.join. rewrite H.
  destruct (_ || _); apply startswith_app.
Qed.

Lemma lower_append (a b : string) :
  Str.lower (a ++ b) = Str.lower a ++ Str.lower b.
Proof. induction a as [|c a IH]; cbn; [reflexivity | now rewrite IH]. Qed.

Lemma str_in_prefix (k a b : string) :
  Str.str_in k a = true -> Str.str_in k (a ++ b) = true.
Proof.
  rewrite !str_in_iff. intros [x [y ->]]. exists x, (y ++ b).
  now rewrite !append_assoc.
Qed.

(** Every directory that the walk visits lies below its starting point,
    and no file name it yields starts with the separator. *)
Lemma walk_node_roots :
  forall (n : node) (top : string),
    names_ok n = true ->
    Forall (fun t => Str.startswith (fst (fst t)) top = true
                     /\ Forall (fun x => Str.startswith x OsPath.sep = false)
                               (snd t))
           (walk_node top n).
Proof.
  fix IH 1. intros [|entries] top H; cbn [walk_node]; constructor.
  - cbn [fst snd]. split; [rewrite <- (append_nil_r top) at 1; apply startswith_app |].
    cbn [names_ok] in H. unfold filenames.
    induction entries as [|[name child] entries IHe]; [constructor |].
    cbn [forallb] in H. apply andb_true_iff in H. destruct H as [H1 H2].
    apply andb_true_iff in H1. destruct H1 as [H1 _].
    cbn [filter snd]. destruct (negb (is_dir child)); cbn [map fst].
    + constructor; [now apply negb_true_iff | now apply IHe].
    + now apply IHe.
  - cbn [names_ok] in H.
    induction entries as [|[name child] entries IHe]; [constructor |].
    cbn [forallb] in H. apply andb_true_iff in H. destruct H as [H1 H2].
    apply andb_true_iff in H1. destruct H1 as [H1 H3].
    apply negb_true_iff in H1.
    cbn [flat_map]. apply Forall_app. split; [| now apply IHe].
    eapply Forall_impl; [| exact (IH child (OsPath.join top name) H3)].
    intros t [A B]. split; [| exact B].
    eapply startswith_trans; [exact A | now apply join_starts].
Qed.

Lemma in_walked_files (w : list (string * list string * list string))
    (r file : string) :
  In (r, file) (walked_files w) ->
  exists d f, In (r, d, f) w /\ In file f.
Proof.
  unfold walked_files. intros H. apply in_flat_map in H.
  destruct H as [[[r' d] f] [Hw Hf]]. apply in_map_iff in Hf.
  destruct Hf as [x [E Hx]]. injection E as -> ->. now exists d, f.
Qed.

End AllowListedRoot.

(** X12.  When the lower-cased path given to [get_mod_file_list] itself
    contains an allow-listed name (a mod directory called [Better Sounds],
    say), every file that the walk finds below it is listed, in whatever
    sub-directory it lies. *)
Theorem allow_listed_root_lists_every_file
    (fs : filesystem) (mod_dir k : string) (n : node) :
  resolve fs mod_dir = Some n ->
  names_ok n = true ->
  In k OK_DIRS ->
  Str.str_in k (Str.lower mod_dir) = true ->
  forall r file,
    In (r, file) (walked_files (os_walk fs mod_dir)) ->
    In (Str.lower file) (get_mod_file_list fs mod_dir).
Proof.
  intros R W Hk Hd r file Hin.
  rewrite get_mod_file_list_by_file. apply in_flat_map.
  exists (r, file). split; [exact Hin |]. cbn [fst snd].
  unfold ok_dir_hits. apply in_flat_map. exists k. split; [exact Hk |].
  assert (P : Str.startswith (OsPath.join r file) mod_dir = true).
  { unfold os_walk in Hin. rewrite R in Hin.
    apply in_walked_files in Hin. destruct Hin as (d & f & Ht & Hf).
    pose proof (walk_node_roots n mod_dir W) as F.
    rewrite Forall_forall in F. destruct (F _ Ht) as [A B].
    cbn [fst snd] in A, B. rewrite Forall_forall in B.
    eapply startswith_trans; [apply join_starts, B, Hf | exact A]. }
  apply startswith_iff in P. destruct P as [t ->].
  rewrite lower_append, (str_in_prefix _ _ _ Hd). now left.
Qed.

(** The text file of [Better Sounds] is listed because of the name of the
    mod directory. *)
Lemma allow_listed_root_lists_every_file_witness :
  resolve fs_sounds "/mods/Better Sounds"
  = Some (Dir [("docs", Dir [("Readme.TXT", File)])])
  /\ In "readme.txt" (get_mod_file_list fs_sounds "/mods/Better Sounds").
Proof.
  assert (R : resolve fs_sounds "/mods/Better Sounds"
              = Some (Dir [("docs", Dir [("Readme.TXT", File)])]))
    by reflexivity.
  split; [exact R |].
  apply (allow_listed_root_lists_every_file fs_sounds "/mods/Better Sounds"
           "sound" _ R) with (r := "/mods/Better Sounds/docs")
                             (file := "Readme.TXT").
  - reflexivity.
  - vm_compute. tauto.
  - reflexivity.
  - vm_compute. tauto.
Defined.

(** ** After the report *)

(** A walk that ends with [Overwritten] does not depend on what follows
    the entry at which it ends. *)
Lemma walk_stops_when_overwritten
    (fs : filesystem) (_mod base_dir : string)
    (items extra : list (nat * string)) :
  forall start_checking mod1_files ow_by ow,
    fst (walk_load_order fs _mod base_dir items start_checking mod1_files ow_by)
    = Overwritten ow ->
    walk_load_order fs _mod base_dir (items ++ extra)%list start_checking
      mod1_files ow_by
    = walk_load_order fs _mod base_dir items start_checking mod1_files ow_by.
Proof.
  induction items as [|[num p] rest IH]; intros sc files ow0 ow H;
    [discriminate |].
  cbn [app walk_load_order] in *.
  destruct (Str.str_in (OsPath.sep ++ _mod) p && negb sc).
  { rewrite fst_emit in H. now rewrite (IH _ _ _ _ H). }
  destruct sc; [| now apply IH with (ow := ow)].
  destruct (0 <? List.length files)%nat; [| reflexivity].
  destruct (String.eqb (mod_name_from_data_path p) _mod).
  { rewrite fst_emit in H. now rewrite (IH _ _ _ _ H). }
  destruct (List.length _ =? 0)%nat.
  { rewrite fst_emit in H. now rewrite (IH _ _ _ _ H). }
  destruct (overwrite_loop _ _ _ files ow0) as [[files' ow'] evs].
  rewrite fst_emit in H. now rewrite (IH _ _ _ _ H).
Qed.

(** X13.  Once [check_mod] reports a mod as overwritten, the entries that
    come later in the load order play no part: with any entries appended
    to the load order, the outcome, the messages and the directories
    walked are the same. *)
Theorem later_entries_are_irrelevant_once_overwritten
    (fs : filesystem) (_mod base_dir : string)
    (all_paths extra : list (nat * string)) (ow_by : list string) :
  fst (check_mod fs _mod all_paths base_dir) = Overwritten ow_by ->
  check_mod fs _mod (all_paths ++ extra)%list base_dir
  = check_mod fs _mod all_paths base_dir.
Proof.
  unfold check_mod. destruct (_ =? 0)%nat; [reflexivity |].
  rewrite fst_emit. intros H.
  now rewrite (walk_stops_when_overwritten _ _ _ _ _ _ _ _ _ H).
Qed.

(** [A] in the load order [A, B, C, D], and with [A] declared once more
    at the end. *)
Lemma later_entries_are_irrelevant_once_overwritten_witness :
  fst (check_mod fs_xy "A" order_ABCD "/mods") = Overwritten ["B"; "C"]
  /\ check_mod fs_xy "A" (order_ABCD ++ [(5, data_line "/mods/A")])%list "/mods"
     = check_mod fs_xy "A" order_ABCD "/mods".
Proof.
  assert (H : fst (check_mod fs_xy "A" order_ABCD "/mods")
              = Overwritten ["B"; "C"]) by reflexivity.
  split; [exact H |].
  exact (later_entries_are_irrelevant_once_overwritten fs_xy "A" "/mods"
           order_ABCD [(5, data_line "/mods/A")] ["B"; "C"] H).
Defined.
